(** * Self-modifying-code support for AArch64 litmus tests

    A shallow embedding of [litmus/libdir/_aarch64/self.c]: the two inline
    assembly statements [selfbar] and [getret], the GNU assembler's reading
    of their templates, the A64 encodings of the instructions they use, and
    a machine with split instruction and data caches on which they run. *)

From Stdlib Require Import ZArith List String Ascii Bool Lia DecimalString.
Import ListNotations.
Local Open Scope string_scope.
Local Open Scope Z_scope.

(** ** Extended asm statements, as written in the C source *)

Module AsmText.

(** The two escapes used in the C string literals: newline and tab. *)
Definition LF : string := String (ascii_of_nat 10) EmptyString.
Definition TAB : string := String (ascii_of_nat 9) EmptyString.

(** A GCC extended asm statement: template, output operands, input
    operands and clobbers.  An operand is a symbolic name with its
    constraint string. *)
Record asm_stmt := mk_asm {
  template : string;
  outputs : list (string * string);
  inputs : list (string * string);
  clobbers : list string
}.

(** [selfbar]: "dc cvau,%[p]\n\t" "dsb sy\n\t" "ic ivau,%[p]\n\t"
    "dsb sy\n\t" "isb" :: [p]"r"(p) : "memory". *)
Definition selfbar_asm : asm_stmt :=
  {| template :=
       ("dc cvau,%[p]" ++ LF ++ TAB) ++ ("dsb sy" ++ LF ++ TAB) ++
       ("ic ivau,%[p]" ++ LF ++ TAB) ++ ("dsb sy" ++ LF ++ TAB) ++ "isb";
     outputs := [];
     inputs := [("p", "r")];
     clobbers := ["memory"] |}.

(** [getret]: "adr %[x1],0f\n\t" "ldr %w[x2],[%[x1]]\n\t" "b 1f\n"
    "0:\n\t" "ret\n" "1:\n" : [x1] "=&r" (x1),[x2] "=&r" (r) : :
    "cc","memory". *)
Definition getret_asm : asm_stmt :=
  {| template :=
       ("adr %[x1],0f" ++ LF ++ TAB) ++ ("ldr %w[x2],[%[x1]]" ++ LF ++ TAB) ++
       ("b 1f" ++ LF) ++ ("0:" ++ LF ++ TAB) ++ ("ret" ++ LF) ++ ("1:" ++ LF);
     outputs := [("x1", "=&r"); ("x2", "=&r")];
     inputs := [];
     clobbers := ["cc"; "memory"] |}.

(** *** Register allocation of the operands

    The compiler picks a general register x0..x30 for every "r" operand.
    An early-clobber output ("=&r") shares its register with no other
    operand. *)
Definition allocation := list (string * nat).

Fixpoint lookup (name : string) (al : allocation) : option nat :=
  match al with
  | [] => None
  | (n, r) :: rest => if String.eqb n name then Some r else lookup name rest
  end.

Definition operand_names (a : asm_stmt) : list string :=
  (map fst (outputs a) ++ map fst (inputs a))%list.

Definition is_early_clobber (constraint : string) : bool :=
  match constraint with
  | String c1 (String c2 _) => Ascii.eqb c1 "=" && Ascii.eqb c2 "&"
  | _ => false
  end.

Definition general_reg (r : nat) : bool := Nat.ltb r 31.

Definition allocated (al : allocation) (name : string) : bool :=
  match lookup name al with
  | Some r => general_reg r
  | None => false
  end.

Definition distinct_from_others (a : asm_stmt) (al : allocation) (name : string) : bool :=
  forallb (fun other =>
             String.eqb other name ||
             negb (match lookup name al, lookup other al with
                   | Some r, Some r' => Nat.eqb r r'
                   | _, _ => true
                   end))
          (operand_names a).

Definition valid_allocation (a : asm_stmt) (al : allocation) : bool :=
  forallb (allocated al) (operand_names a) &&
  forallb (fun o => negb (is_early_clobber (snd o)) || distinct_from_others a al (fst o))
          (outputs a).

(** *** Operand substitution

    [%[name]] prints the operand's 64-bit register name, [%w[name]] its
    32-bit name; every other character is copied. *)
Definition dec (n : nat) : string := NilEmpty.string_of_uint (Nat.to_uint n).

Inductive subst_mode :=
| Copy
| Percent
| Modifier (m : ascii)
| Name (prefix : string) (acc : string).

Definition reg_prefix (m : ascii) : option string :=
  if Ascii.eqb m "w" then Some "w"
  else if Ascii.eqb m "x" then Some "x"
  else None.

Fixpoint substitute (al : allocation) (m : subst_mode) (s : string) : option string :=
  match s with
  | EmptyString => match m with Copy => Some EmptyString | _ => None end
  | String c rest =>
      match m with
      | Copy =>
          if Ascii.eqb c "%" then substitute al Percent rest
          else option_map (String c) (substitute al Copy rest)
      | Percent =>
          if Ascii.eqb c "[" then substitute al (Name "x" EmptyString) rest
          else if Ascii.eqb c "%" then option_map (String c) (substitute al Copy rest)
          else substitute al (Modifier c) rest
      | Modifier k =>
          if Ascii.eqb c "[" then
            match reg_prefix k with
            | Some p => substitute al (Name p EmptyString) rest
            | None => None
            end
          else None
      | Name p acc =>
          if Ascii.eqb c "]" then
            match lookup acc al, substitute al Copy rest with
            | Some r, Some out => Some (p ++ dec r ++ out)
            | _, _ => None
            end
          else substitute al (Name p (acc ++ String c EmptyString)) rest
      end
  end.

(** *** The assembler's reading of the substituted text *)

Definition is_blank (c : ascii) : bool := Ascii.eqb c " " || Ascii.eqb c "009".

Fixpoint split_on (sep : ascii) (cur : string) (s : string) : list string :=
  match s with
  | EmptyString => [cur]
  | String c rest =>
      if Ascii.eqb c sep then cur :: split_on sep EmptyString rest
      else split_on sep (cur ++ String c EmptyString) rest
  end.

Fixpoint drop_blanks (s : string) : string :=
  match s with
  | String c rest => if is_blank c then drop_blanks rest else s
  | EmptyString => EmptyString
  end.

Fixpoint rev_string (acc s : string) : string :=
  match s with
  | EmptyString => acc
  | String c rest => rev_string (String c acc) rest
  end.

Definition trim (s : string) : string :=
  rev_string EmptyString (drop_blanks (rev_string EmptyString (drop_blanks s))).

(** Mnemonic and operand field of a statement: split at the first blank. *)
Fixpoint split_mnemonic (acc : string) (s : string) : string * string :=
  match s with
  | EmptyString => (acc, EmptyString)
  | String c rest =>
      if is_blank c then (acc, rest)
      else split_mnemonic (acc ++ String c EmptyString) rest
  end.

Definition parse_nat (s : string) : option nat :=
  match s with
  | EmptyString => None
  | _ => option_map Nat.of_uint (NilEmpty.uint_of_string s)
  end.

(** A register name [x0]..[x30] or [w0]..[w30]. *)
Definition parse_reg (prefix : ascii) (s : string) : option nat :=
  match s with
  | String c num =>
      if Ascii.eqb c prefix then
        match parse_nat num with
        | Some r => if general_reg r then Some r else None
        | None => None
        end
      else None
  | EmptyString => None
  end.

(** A base-register address [[xN]]. *)
Definition parse_base (s : string) : option nat :=
  match s with
  | String c rest =>
      if Ascii.eqb c "[" then
        match rev_string EmptyString rest with
        | String c' inner =>
            if Ascii.eqb c' "]" then parse_reg "x" (rev_string EmptyString inner)
            else None
        | EmptyString => None
        end
      else None
  | EmptyString => None
  end.

(** A reference to a local numeric label: [Nf] is the next definition of
    [N] below the reference, [Nb] the closest one above it. *)
Inductive target :=
| Fwd (n : nat)
| Bwd (n : nat).

Definition parse_target (s : string) : option target :=
  match rev_string EmptyString s with
  | String c num =>
      match parse_nat (rev_string EmptyString num) with
      | Some n =>
          if Ascii.eqb c "f" then Some (Fwd n)
          else if Ascii.eqb c "b" then Some (Bwd n)
          else None
      | None => None
      end
  | EmptyString => None
  end.

(** Assembler statements: a label definition or one instruction of the
    subset that self.c uses. *)
Inductive stmt :=
| SLabel (n : nat)
| SDcCvau (rt : nat)
| SDsbSy
| SIcIvau (rt : nat)
| SIsb
| SAdr (rd : nat) (t : target)
| SLdrW (rt rn : nat)
| SB (t : target)
| SRet.

Definition is_instruction (s : stmt) : bool :=
  match s with SLabel _ => false | _ => true end.

Definition parse_instruction (mnemonic : string) (ops : list string) : option stmt :=
  if String.eqb mnemonic "dc" then
    match ops with
    | [op; r] => if String.eqb op "cvau" then option_map SDcCvau (parse_reg "x" r) else None
    | _ => None
    end
  else if String.eqb mnemonic "ic" then
    match ops with
    | [op; r] => if String.eqb op "ivau" then option_map SIcIvau (parse_reg "x" r) else None
    | _ => None
    end
  else if String.eqb mnemonic "dsb" then
    match ops with
    | [op] => if String.eqb op "sy" then Some SDsbSy else None
    | _ => None
    end
  else if String.eqb mnemonic "isb" then
    match ops with
    | [] => Some SIsb
    | _ => None
    end
  else if String.eqb mnemonic "adr" then
    match ops with
    | [r; t] =>
        match parse_reg "x" r, parse_target t with
        | Some rd, Some tg => Some (SAdr rd tg)
        | _, _ => None
        end
    | _ => None
    end
  else if String.eqb mnemonic "ldr" then
    match ops with
    | [r; b] =>
        match parse_reg "w" r, parse_base b with
        | Some rt, Some rn => Some (SLdrW rt rn)
        | _, _ => None
        end
    | _ => None
    end
  else if String.eqb mnemonic "b" then
    match ops with
    | [t] => option_map SB (parse_target t)
    | _ => None
    end
  else if String.eqb mnemonic "ret" then
    match ops with
    | [] => Some SRet
    | _ => None
    end
  else None.

Definition operands_of (field : string) : list string :=
  match trim field with
  | EmptyString => []
  | f => map trim (split_on "," EmptyString f)
  end.

(** One source line: blank, a label definition [N:], or an instruction. *)
Definition parse_line (line : string) : option (list stmt) :=
  match trim line with
  | EmptyString => Some []
  | l =>
      match rev_string EmptyString l with
      | String c num =>
          if Ascii.eqb c ":" then
            option_map (fun n => [SLabel n]) (parse_nat (rev_string EmptyString num))
          else
            let (m, field) := split_mnemonic EmptyString l in
            option_map (fun i => [i]) (parse_instruction m (operands_of field))
      | EmptyString => None
      end
  end.

Fixpoint parse_lines (ls : list string) : option (list stmt) :=
  match ls with
  | [] => Some []
  | l :: rest =>
      match parse_line l, parse_lines rest with
      | Some a, Some b => Some (a ++ b)%list
      | _, _ => None
      end
  end.

Definition parse (text : string) : option (list stmt) :=
  parse_lines (split_on "010" EmptyString text).

(** The statements the assembler sees for an asm statement under a
    register allocation. *)
Definition statements (a : asm_stmt) (al : allocation) : option (list stmt) :=
  match substitute al Copy (template a) with
  | Some text => parse text
  | None => None
  end.

End AsmText.

(** ** The A64 instructions of self.c: layout, encoding, decoding *)

Module A64.
Import AsmText.

(** Machine instructions, with label references resolved to byte offsets
    from the instruction's own address. *)
Inductive instr :=
| DC_CVAU (rt : nat)
| DSB_SY
| IC_IVAU (rt : nat)
| ISB
| ADR (rd : nat) (imm : Z)
| LDR_W (rt rn : nat) (imm : Z)
| B (imm : Z)
| RET (rn : nat).

(** Every instruction takes four bytes; a label takes none and names the
    offset of whatever follows it. *)
Fixpoint layout (off : Z) (ss : list stmt) : list (Z * stmt) :=
  match ss with
  | [] => []
  | SLabel n :: rest => (off, SLabel n) :: layout off rest
  | i :: rest => (off, i) :: layout (off + 4) rest
  end.

Fixpoint find_label (n : nat) (l : list (Z * stmt)) : option Z :=
  match l with
  | [] => None
  | (off, SLabel m) :: rest => if Nat.eqb m n then Some off else find_label n rest
  | _ :: rest => find_label n rest
  end.

(** [above] holds the statements before the current one, closest first;
    [below] those after it. *)
Definition target_offset (above below : list (Z * stmt)) (t : target) : option Z :=
  match t with
  | Fwd n => find_label n below
  | Bwd n => find_label n above
  end.

Definition fits_adr (imm : Z) : bool := (- 2 ^ 20 <=? imm) && (imm <? 2 ^ 20).
Definition fits_b (imm : Z) : bool :=
  (- 2 ^ 27 <=? imm) && (imm <? 2 ^ 27) && (imm mod 4 =? 0).

Definition resolve (above below : list (Z * stmt)) (off : Z) (s : stmt) : option instr :=
  match s with
  | SLabel _ => None
  | SDcCvau rt => Some (DC_CVAU rt)
  | SDsbSy => Some DSB_SY
  | SIcIvau rt => Some (IC_IVAU rt)
  | SIsb => Some ISB
  | SAdr rd t =>
      match target_offset above below t with
      | Some a => if fits_adr (a - off) then Some (ADR rd (a - off)) else None
      | None => None
      end
  | SLdrW rt rn => Some (LDR_W rt rn 0)
  | SB t =>
      match target_offset above below t with
      | Some a => if fits_b (a - off) then Some (B (a - off)) else None
      | None => None
      end
  | SRet => Some (RET 30)
  end.

Fixpoint resolve_all (above below : list (Z * stmt)) : option (list instr) :=
  match below with
  | [] => Some []
  | (off, s) :: rest =>
      if is_instruction s then
        match resolve above rest off s, resolve_all ((off, s) :: above) rest with
        | Some i, Some more => Some (i :: more)
        | _, _ => None
        end
      else resolve_all ((off, s) :: above) rest
  end.

Definition assemble (a : asm_stmt) (al : allocation) : option (list instr) :=
  match statements a al with
  | Some ss => resolve_all [] (layout 0 ss)
  | None => None
  end.

(** *** Encodings, from the A64 instruction descriptions

    [dc cvau] and [ic ivau] are the SYS aliases with op1 = 3, CRn = 7,
    op2 = 1 and CRm = 11, respectively 5; [dsb sy] and [isb] have
    CRm = 15; [adr] splits its 21-bit offset into immlo and immhi; [ldr]
    is the 32-bit unsigned-offset form with the offset in words; [ret]
    without operand returns through x30. *)

Definition R (r : nat) : Z := Z.of_nat r.

Definition encode (i : instr) : Z :=
  match i with
  | DC_CVAU rt => Z.lor 0xD50B7B20 (R rt)
  | DSB_SY => 0xD5033F9F
  | IC_IVAU rt => Z.lor 0xD50B7520 (R rt)
  | ISB => 0xD5033FDF
  | ADR rd imm =>
      Z.lor (Z.lor (Z.lor 0x10000000 (Z.shiftl (Z.land imm 3) 29))
                   (Z.shiftl (Z.land (Z.shiftr imm 2) 0x7FFFF) 5))
            (R rd)
  | LDR_W rt rn imm =>
      Z.lor (Z.lor (Z.lor 0xB9400000 (Z.shiftl (Z.land (Z.shiftr imm 2) 0xFFF) 10))
                   (Z.shiftl (R rn) 5))
            (R rt)
  | B imm => Z.lor 0x14000000 (Z.land (Z.shiftr imm 2) 0x3FFFFFF)
  | RET rn => Z.lor 0xD65F0000 (Z.shiftl (R rn) 5)
  end.

Definition field (w : Z) (lo len : Z) : Z := Z.land (Z.shiftr w lo) (Z.ones len).

Definition sign_extend (bits : Z) (v : Z) : Z :=
  if Z.testbit v (bits - 1) then v - 2 ^ bits else v.

Definition reg_field (w : Z) (lo : Z) : nat := Z.to_nat (field w lo 5).

Definition decode (w : Z) : option instr :=
  if Z.land w 0xFFFFFFE0 =? 0xD50B7B20 then Some (DC_CVAU (reg_field w 0))
  else if Z.land w 0xFFFFFFE0 =? 0xD50B7520 then Some (IC_IVAU (reg_field w 0))
  else if w =? 0xD5033F9F then Some DSB_SY
  else if w =? 0xD5033FDF then Some ISB
  else if Z.land w 0x9F000000 =? 0x10000000 then
    Some (ADR (reg_field w 0)
              (sign_extend 21 (Z.lor (Z.shiftl (field w 5 19) 2) (field w 29 2))))
  else if Z.land w 0xFFC00000 =? 0xB9400000 then
    Some (LDR_W (reg_field w 0) (reg_field w 5) (4 * field w 10 12))
  else if Z.land w 0xFC000000 =? 0x14000000 then
    Some (B (4 * sign_extend 26 (field w 0 26)))
  else if Z.land w 0xFFFFFC1F =? 0xD65F0000 then Some (RET (reg_field w 5))
  else None.

End A64.

(** ** A machine with split instruction and data caches

    One core of an Armv8-A machine, as far as self.c can tell: its
    registers, memory seen through a write-back data cache and a separate
    instruction cache that are not kept coherent by hardware, the words
    already in the pipeline, and the cache maintenance still in flight.
    The instruction semantics follow the Arm Architecture Reference
    Manual: maintenance by address completes at some later time and at
    the latest at the next [dsb]; [isb] discards what the pipeline has
    fetched. *)

Module Machine.
Import A64.

(** Cache maintenance by virtual address, issued but not yet complete. *)
Inductive maint :=
| CleanD (va : Z)
| InvalI (va : Z).

(** [mem] is memory at the point of unification.  [dcache] holds the bytes
    written but not yet cleaned to [mem]; [icache] the bytes the
    instruction side has cached; [pipe] the instruction words already
    fetched into the pipeline.  [dminline] and [iminline] are the fields
    of CTR_EL0: log2 of the words per cache line. *)
Record machine := mk_machine {
  pc : Z;
  sp : Z;
  xreg : nat -> Z;
  mem : Z -> Z;
  dcache : Z -> option Z;
  icache : Z -> option Z;
  pipe : Z -> option Z;
  pending : list maint;
  dminline : nat;
  iminline : nat
}.

Definition with_pc (v : Z) (s : machine) : machine :=
  mk_machine v (sp s) (xreg s) (mem s) (dcache s) (icache s) (pipe s)
             (pending s) (dminline s) (iminline s).

Definition with_xreg (f : nat -> Z) (s : machine) : machine :=
  mk_machine (pc s) (sp s) f (mem s) (dcache s) (icache s) (pipe s)
             (pending s) (dminline s) (iminline s).

Definition with_data (m : Z -> Z) (d : Z -> option Z) (s : machine) : machine :=
  mk_machine (pc s) (sp s) (xreg s) m d (icache s) (pipe s)
             (pending s) (dminline s) (iminline s).

Definition with_icache (c : Z -> option Z) (s : machine) : machine :=
  mk_machine (pc s) (sp s) (xreg s) (mem s) (dcache s) c (pipe s)
             (pending s) (dminline s) (iminline s).

Definition with_pipe (f : Z -> option Z) (s : machine) : machine :=
  mk_machine (pc s) (sp s) (xreg s) (mem s) (dcache s) (icache s) f
             (pending s) (dminline s) (iminline s).

Definition with_pending (l : list maint) (s : machine) : machine :=
  mk_machine (pc s) (sp s) (xreg s) (mem s) (dcache s) (icache s) (pipe s)
             l (dminline s) (iminline s).

(** *** Registers *)

Definition wrap64 (v : Z) : Z := v mod 2 ^ 64.

(** Register 31 reads as zero and ignores writes (XZR), except as a load
    base, where it is the stack pointer. *)
Definition getX (s : machine) (r : nat) : Z :=
  if Nat.eqb r 31 then 0 else xreg s r.

Definition getXsp (s : machine) (r : nat) : Z :=
  if Nat.eqb r 31 then sp s else xreg s r.

Definition setX (r : nat) (v : Z) (s : machine) : machine :=
  if Nat.eqb r 31 then s
  else with_xreg (fun k => if Nat.eqb k r then v else xreg s k) s.

(** *** Bytes and words *)

Definition byte_of (w i : Z) : Z := (w / 2 ^ (8 * i)) mod 256.

Definition le32 (b0 b1 b2 b3 : Z) : Z :=
  b0 + 256 * b1 + 65536 * b2 + 16777216 * b3.

Definition data_byte (s : machine) (x : Z) : Z :=
  match dcache s x with Some b => b | None => mem s x end.

Definition inst_byte (s : machine) (x : Z) : Z :=
  match icache s x with Some b => b | None => mem s x end.

(** What a data load of four bytes at [a] returns. *)
Definition load32 (s : machine) (a : Z) : Z :=
  le32 (data_byte s a) (data_byte s (a + 1)) (data_byte s (a + 2)) (data_byte s (a + 3)).

(** What the instruction side reads at [a] when the pipeline holds no
    word for it. *)
Definition icache_read32 (s : machine) (a : Z) : Z :=
  le32 (inst_byte s a) (inst_byte s (a + 1)) (inst_byte s (a + 2)) (inst_byte s (a + 3)).

Definition fetch32 (s : machine) (a : Z) : Z :=
  match pipe s a with Some w => w | None => icache_read32 s a end.

(** An instruction fetch; a misaligned address is a PC alignment fault. *)
Definition ifetch (s : machine) (a : Z) : option Z :=
  if a mod 4 =? 0 then Some (fetch32 s a) else None.

(** A data store of a 32-bit word: the bytes land in the data cache. *)
Definition store32 (a w : Z) (s : machine) : machine :=
  with_data (mem s)
            (fun x => if (a <=? x) && (x <? a + 4) then Some (byte_of w (x - a))
                      else dcache s x)
            s.

(** *** Cache lines and maintenance *)

Definition line_bytes (log2words : nat) : Z := 4 * 2 ^ Z.of_nat log2words.
Definition dline (s : machine) (x : Z) : Z := x / line_bytes (dminline s).
Definition iline (s : machine) (x : Z) : Z := x / line_bytes (iminline s).

(** Clean the data cache line of [va] to the point of unification. *)
Definition clean_line (va : Z) (s : machine) : machine :=
  with_data (fun x => if dline s x =? dline s va then data_byte s x else mem s x)
            (fun x => if dline s x =? dline s va then None else dcache s x)
            s.

(** Invalidate the instruction cache line of [va]. *)
Definition inval_line (va : Z) (s : machine) : machine :=
  with_icache (fun x => if iline s x =? iline s va then None else icache s x) s.

Definition complete (m : maint) (s : machine) : machine :=
  match m with
  | CleanD va => clean_line va s
  | InvalI va => inval_line va s
  end.

Definition complete_all (l : list maint) (s : machine) : machine :=
  fold_left (fun st m => complete m st) l s.

(** *** What the hardware and other observers may do at any time

    [Evict] writes a dirty data-cache line back; [Fill] brings a line of
    memory into the instruction cache and [Discard] drops one;
    [Prefetch] fetches the word at an address into the pipeline;
    [Complete n] finishes the [n]-th maintenance operation in flight,
    in any order; [Store] is a byte written by another observer, which
    the coherent data side sees at once. *)

Inductive hw_action :=
| Evict (va : Z)
| Fill (va : Z)
| Discard (va : Z)
| Prefetch (a : Z)
| Complete (n : nat)
| Store (a b : Z).

Definition remove_nth {A} (n : nat) (l : list A) : list A :=
  (firstn n l ++ skipn (S n) l)%list.

Definition apply_hw (h : hw_action) (s : machine) : machine :=
  match h with
  | Evict va => clean_line va s
  | Fill va =>
      with_icache (fun x => if iline s x =? iline s va then Some (mem s x) else icache s x) s
  | Discard va => inval_line va s
  | Prefetch a =>
      with_pipe (fun x => if x =? a then Some (icache_read32 s a) else pipe s x) s
  | Complete n =>
      match nth_error (pending s) n with
      | Some m => with_pending (remove_nth n (pending s)) (complete m s)
      | None => s
      end
  | Store a b =>
      with_data (mem s) (fun x => if x =? a then Some (b mod 256) else dcache s x) s
  end.

Definition apply_all (hs : list hw_action) (s : machine) : machine :=
  fold_left (fun st h => apply_hw h st) hs s.

(** *** Instructions *)

(** The primitive operation an executed instruction performs, with its
    operands evaluated. *)
Inductive op :=
| CleanDataToPoU (va : Z)
| DataSyncBarrier
| InvalInstToPoU (va : Z)
| InstSyncBarrier
| AddrOf (rd : nat) (v : Z)
| Load32 (rt : nat) (a v : Z)
| Branch (t : Z)
| Return (t : Z).

Definition next (s : machine) : machine := with_pc (wrap64 (pc s + 4)) s.

Definition exec (i : instr) (s : machine) : op * machine :=
  match i with
  | DC_CVAU rt =>
      (CleanDataToPoU (getX s rt),
       next (with_pending (pending s ++ [CleanD (getX s rt)]) s))
  | DSB_SY =>
      (DataSyncBarrier, next (with_pending [] (complete_all (pending s) s)))
  | IC_IVAU rt =>
      (InvalInstToPoU (getX s rt),
       next (with_pending (pending s ++ [InvalI (getX s rt)]) s))
  | ISB => (InstSyncBarrier, next (with_pipe (fun _ => None) s))
  | ADR rd imm =>
      (AddrOf rd (wrap64 (pc s + imm)), next (setX rd (wrap64 (pc s + imm)) s))
  | LDR_W rt rn imm =>
      let a := wrap64 (getXsp s rn + imm) in
      (Load32 rt a (load32 s a), next (setX rt (load32 s a) s))
  | B imm => (Branch (wrap64 (pc s + imm)), with_pc (wrap64 (pc s + imm)) s)
  | RET rn => (Return (getX s rn), with_pc (getX s rn) s)
  end.

(** Fetch at [pc], decode, execute.  [None] is a fault: a misaligned
    [pc] or a word outside the modelled subset. *)
Definition step (s : machine) : option (op * machine) :=
  match ifetch s (pc s) with
  | Some w =>
      match decode w with
      | Some i => Some (exec i s)
      | None => None
      end
  | None => None
  end.

Inductive outcome :=
| Done (tr : list op) (s : machine)
| Fault
| OutOfFuel.

(** Run until control reaches [stop].  Before the [n]-th instruction the
    hardware and the other observers perform the actions [sch n]. *)
Fixpoint run (fuel : nat) (stop : Z) (sch : nat -> list hw_action) (n : nat)
         (s : machine) : outcome :=
  if pc s =? stop then Done [] s
  else
    match fuel with
    | O => OutOfFuel
    | S f =>
        match step (apply_all (sch n) s) with
        | Some (o, s') =>
            match run f stop sch (S n) s' with
            | Done tr s'' => Done (o :: tr) s''
            | other => other
            end
        | None => Fault
        end
    end.

End Machine.

Import AsmText A64 Machine.

(** ** The two C functions *)

Module Self.

(** [typedef uint32_t ins_t]. *)
Definition ins_t (v : Z) : Z := v mod 2 ^ 32.

Inductive result (A : Type) :=
| Returns (tr : list op) (v : A) (s : machine)
| Faults
| Diverges.
Arguments Returns {A} tr v s.
Arguments Faults {A}.
Arguments Diverges {A}.

(** Run the instructions of an asm statement placed at [base], from its
    first instruction until control leaves through its end. *)
Definition run_asm (a : asm_stmt) (al : allocation) (base : Z) (fuel : nat)
           (sch : nat -> list hw_action) (s : machine) : outcome :=
  match assemble a al with
  | Some code => run fuel (base + 4 * Z.of_nat (List.length code)) sch 0 (with_pc base s)
  | None => Fault
  end.

(** [inline static void selfbar(void *p)]: the input operand [p] is in
    the register [rp] when the statement starts. *)
Definition selfbar (base : Z) (rp : nat) (fuel : nat) (sch : nat -> list hw_action)
           (p : Z) (s : machine) : result unit :=
  match run_asm selfbar_asm [("p", rp)] base fuel sch (setX rp p s) with
  | Done tr s' => Returns tr tt s'
  | Fault => Faults
  | OutOfFuel => Diverges
  end.

(** [static ins_t getret(void)]: [return r] yields the output operand
    bound to [x2], as a [uint32_t]. *)
Definition getret (base : Z) (rx1 rx2 : nat) (fuel : nat) (sch : nat -> list hw_action)
           (s : machine) : result Z :=
  match run_asm getret_asm [("x1", rx1); ("x2", rx2)] base fuel sch s with
  | Done tr s' => Returns tr (ins_t (getX s' rx2)) s'
  | Fault => Faults
  | OutOfFuel => Diverges
  end.

End Self.

Import Self.

(** ** Coherence: what it means for a word to be written, and to be
    fetched as written *)

(** The byte at [x] is [b] in memory and the data cache holds nothing
    newer. *)
Definition clean_at (s : machine) (x b : Z) : Prop :=
  mem s x = b /\ dcache s x = None.

Definition icache_ok (s : machine) (x b : Z) : Prop :=
  icache s x = None \/ icache s x = Some b.

Definition synced_byte (s : machine) (x b : Z) : Prop :=
  clean_at s x b /\ icache_ok s x b.

Definition pipe_ok (s : machine) (a w : Z) : Prop :=
  pipe s a = None \/ pipe s a = Some (w mod 2 ^ 32).

(** The instruction side and the data side both see the word [w] at [a],
    and nothing cached can make either see anything else. *)
Definition holds (s : machine) (a w : Z) : Prop :=
  synced_byte s a (byte_of w 0) /\ synced_byte s (a + 1) (byte_of w 1) /\
  synced_byte s (a + 2) (byte_of w 2) /\ synced_byte s (a + 3) (byte_of w 3) /\
  pipe_ok s a w.

(** The data side sees the word [w] at [a]. *)
Definition written (s : machine) (a w : Z) : Prop :=
  data_byte s a = byte_of w 0 /\ data_byte s (a + 1) = byte_of w 1 /\
  data_byte s (a + 2) = byte_of w 2 /\ data_byte s (a + 3) = byte_of w 3.

(** Consecutive instruction words from [a] on. *)
Fixpoint loaded (s : machine) (a : Z) (ws : list Z) : Prop :=
  match ws with
  | [] => True
  | w :: rest => holds s a w /\ loaded s (a + 4) rest
  end.

(** *** Schedules: which actions leave an address alone *)

(** The action is not a store of another observer into [lo, hi). *)
Definition no_store_in (lo hi : Z) (h : hw_action) : bool :=
  match h with
  | Store a _ => (a <? lo) || (hi <=? a)
  | _ => true
  end.

Definition no_store (h : hw_action) : bool :=
  match h with
  | Store _ _ => false
  | _ => true
  end.

Definition spares (x : Z) (h : hw_action) : Prop :=
  match h with
  | Store a _ => a <> x
  | _ => True
  end.

(** *** Decidable checks, to settle all register choices by enumeration *)

Definition instr_eq_dec (a b : instr) : {a = b} + {a <> b}.
Proof. decide equality; first [apply Nat.eq_dec | apply Z.eq_dec]. Defined.

Definition decodes_back (i : instr) : bool :=
  match decode (encode i mod 2 ^ 32) with
  | Some j => if instr_eq_dec i j then true else false
  | None => false
  end.

Definition assembles_to (a : asm_stmt) (al : allocation) (code : list instr) : bool :=
  match assemble a al with
  | Some c => if list_eq_dec instr_eq_dec c code then true else false
  | None => false
  end.

Definition stmt_eq_dec (a b : stmt) : {a = b} + {a <> b}.
Proof. repeat decide equality. Defined.

Definition reads_as (a : asm_stmt) (al : allocation) (ss : list stmt) : bool :=
  match statements a al with
  | Some c => if list_eq_dec stmt_eq_dec c ss then true else false
  | None => false
  end.

(** *** States along a run *)

(** The state after the actions [hs] and then the instruction [i]. *)
Definition after (i : instr) (hs : list hw_action) (s : machine) : machine :=
  snd (exec i (apply_all hs s)).

Definition falls_through (i : instr) : bool :=
  match i with
  | B _ | RET _ => false
  | _ => true
  end.

(** The word at [pc] decodes to [i]. *)
Definition fetches (s : machine) (i : instr) : Prop :=
  match ifetch s (pc s) with
  | Some w => decode w = Some i
  | None => False
  end.

(** A clean of the byte's line has been issued, or the byte is clean. *)
Definition cleaning (s : machine) (x b : Z) : Prop :=
  data_byte s x = b /\
  (dcache s x = None \/ exists va, In (CleanD va) (pending s) /\ dline s x = dline s va).

(** An invalidate of the byte's line has been issued, or the instruction
    cache holds nothing stale for it. *)
Definition invalidating (s : machine) (x b : Z) : Prop :=
  clean_at s x b /\
  (icache_ok s x b \/ exists va, In (InvalI va) (pending s) /\ iline s x = iline s va).

(** The register an instruction writes, if any. *)
Definition written_reg (i : instr) : option nat :=
  match i with
  | ADR rd _ => Some rd
  | LDR_W rt _ _ => Some rt
  | _ => None
  end.

(** Maintenance and barriers leave the registers alone. *)
Definition keeps_regs (i : instr) : bool :=
  match i with
  | DC_CVAU _ | DSB_SY | IC_IVAU _ | ISB => true
  | _ => false
  end.

(** The barrier's instructions with the hardware's actions in between. *)
Definition selfbar_final (rp : nat) (sch : nat -> list hw_action) (s : machine) : machine :=
  after ISB (sch 4%nat)
    (after DSB_SY (sch 3%nat)
       (after (IC_IVAU rp) (sch 2%nat)
          (after DSB_SY (sch 1%nat)
             (after (DC_CVAU rp) (sch 0%nat) s)))).

(** The machine code of an asm statement under an allocation. *)
Definition text_of (a : asm_stmt) (al : allocation) : list Z :=
  match assemble a al with
  | Some code => map encode code
  | None => []
  end.

(** The probe's three executed instructions with the hardware's actions
    in between. *)
Definition getret_final (rx1 rx2 : nat) (sch : nat -> list hw_action) (s : machine) : machine :=
  after (B 8) (sch 2%nat)
    (after (LDR_W rx2 rx1 0) (sch 1%nat)
       (after (ADR rx1 12) (sch 0%nat) s)).

(** *** What follows a call: further actions and instructions *)

Inductive event :=
| Hw (h : hw_action)
| Exec (i : instr).

Definition play_one (e : event) (s : machine) : machine :=
  match e with
  | Hw h => apply_hw h s
  | Exec i => snd (exec i s)
  end.

Definition play (evs : list event) (s : machine) : machine :=
  fold_left (fun st e => play_one e st) evs s.

Definition spares_word (a : Z) (e : event) : bool :=
  match e with
  | Hw h => no_store_in a (a + 4) h
  | Exec _ => true
  end.

(** [blr] at address [c]: the link register takes the address of the next
    instruction and control moves to [target]. *)
Definition call (c target : Z) (s : machine) : machine :=
  with_pc target (setX 30 (wrap64 (c + 4)) s).

(** The actions of a schedule alone, with no instruction in between. *)
Fixpoint idle (sch : nat -> list hw_action) (n : nat) (s : machine) : machine :=
  match n with
  | O => s
  | S k => apply_all (sch k) (idle sch k s)
  end.

(** Everything but the core's own registers: memory, the caches, the
    pipeline, the maintenance in flight and the line sizes. *)
Definition memsys (s : machine) :=
  (mem s, dcache s, icache s, pipe s, pending s, dminline s, iminline s).

(** Instructions that issue no maintenance and no barrier. *)
Definition plain (i : instr) : bool :=
  match i with
  | ADR _ _ | LDR_W _ _ _ | B _ | RET _ => true
  | _ => false
  end.

(** No action at all between the instructions. *)
Definition quiet (n : nat) : list hw_action := [].

(** *** Another core

    A second core of the same Inner Shareable domain shares memory and
    the coherent data side, and has an instruction cache and a pipeline
    of its own.  [ic ivau] is broadcast: it invalidates the line in the
    other core's instruction cache too.  [isb] acts only on the core
    that executes it. *)
Record peer := mk_peer {
  p_icache : Z -> option Z;
  p_pipe : Z -> option Z;
  p_iminline : nat
}.

Definition peer_byte (pe : peer) (s : machine) (x : Z) : Z :=
  match p_icache pe x with Some b => b | None => mem s x end.

Definition peer_read32 (pe : peer) (s : machine) (a : Z) : Z :=
  le32 (peer_byte pe s a) (peer_byte pe s (a + 1)) (peer_byte pe s (a + 2))
       (peer_byte pe s (a + 3)).

(** An instruction fetch by the other core. *)
Definition peer_fetch (pe : peer) (s : machine) (a : Z) : option Z :=
  if a mod 4 =? 0
  then Some (match p_pipe pe a with Some w => w | None => peer_read32 pe s a end)
  else None.

(** The other core fetches the word at [a] into its pipeline. *)
Definition peer_prefetch (a : Z) (s : machine) (pe : peer) : peer :=
  mk_peer (p_icache pe)
          (fun x => if x =? a then Some (peer_read32 pe s a) else p_pipe pe x)
          (p_iminline pe).

(** What a completed [ic ivau] on [va], issued by the first core, does to
    the other core: its line of [va] is invalidated, its pipeline is not
    touched. *)
Definition peer_invalidate (va : Z) (pe : peer) : peer :=
  mk_peer (fun x => if x / line_bytes (p_iminline pe) =? va / line_bytes (p_iminline pe)
                    then None else p_icache pe x)
          (p_pipe pe) (p_iminline pe).

(** The other core executes an [isb] of its own. *)
Definition peer_isb (pe : peer) : peer :=
  mk_peer (p_icache pe) (fun _ => None) (p_iminline pe).

(** *** Where the labels of a statement fall *)

Definition stmts_of (a : asm_stmt) (al : allocation) : list stmt :=
  match statements a al with
  | Some ss => ss
  | None => []
  end.

(** Offset of the local label [n] from the start of the statement. *)
Definition label_offset (a : asm_stmt) (al : allocation) (n : nat) : option Z :=
  find_label n (layout 0 (stmts_of a al)).

Fixpoint find_ret (l : list (Z * stmt)) : option Z :=
  match l with
  | [] => None
  | (off, SRet) :: _ => Some off
  | _ :: rest => find_ret rest
  end.

(** Offset of the [ret] instruction from the start of the statement. *)
Definition ret_offset (a : asm_stmt) (al : allocation) : option Z :=
  find_ret (layout 0 (stmts_of a al)).

(** The probe as the code has it: the label is at the return instruction
    and the load reads the word at the label. *)
Definition code_probe_ops (rx1 rx2 : nat) (ret_at second w : Z) : list op :=
  [AddrOf rx1 ret_at; Load32 rx2 ret_at w; Branch second].

(** The probe in the spec's words: the label [L] is placed immediately
    after the return instruction, the load reads the word one instruction
    before [L], and control jumps to the second label. *)
Definition spec_probe_ops (rx1 rx2 : nat) (ret_at second w : Z) : list op :=
  [AddrOf rx1 (ret_at + 4); Load32 rx2 (ret_at + 4 - 4) w; Branch second].

(** *** A concrete machine *)

(** Memory [m] with the words [ws] laid out from [a] on, little-endian. *)
Definition place (a : Z) (ws : list Z) (m : Z -> Z) : Z -> Z :=
  fun x =>
    if (a <=? x) && (x <? a + 4 * Z.of_nat (List.length ws))
    then byte_of (nth (Z.to_nat ((x - a) / 4)) ws 0) ((x - a) mod 4)
    else m x.

Module Demo.

(** [selfbar] is inlined at 0x1000 with its operand in x3, [getret]'s
    statement sits at 0x2000 with x8 and x9, and the buffer at 0x3000 is
    zero in memory, in the instruction cache and in the pipeline.  Cache
    lines are 64 bytes. *)
Definition machine0 : machine :=
  {| pc := 0;
     sp := 65536;
     xreg := fun _ => 0;
     mem := place 4096 (text_of selfbar_asm [("p", 3%nat)])
              (place 8192 (text_of getret_asm [("x1", 8%nat); ("x2", 9%nat)])
                 (fun _ => 0));
     dcache := fun _ => None;
     icache := fun x => if (12288 <=? x) && (x <? 12352) then Some 0 else None;
     pipe := fun x => if x =? 12288 then Some 0 else None;
     pending := [];
     dminline := 4;
     iminline := 4 |}.

(** Hardware that never rests, and another observer writing elsewhere. *)
Definition busy (n : nat) : list hw_action :=
  [Fill 12288; Prefetch 12288; Store 20000 (Z.of_nat n); Complete 0; Discard 4096;
   Prefetch 12288].

(** The same hardware, with no other observer. *)
Definition alone (n : nat) : list hw_action :=
  [Fill 12288; Prefetch 12288; Complete 0; Evict 12288; Prefetch 12292].

(** The same machine with instruction-cache lines of 32 bytes and
    data-cache lines of 64. *)
Definition machine_skewed : machine :=
  mk_machine (pc machine0) (sp machine0) (xreg machine0) (mem machine0) (dcache machine0)
             (icache machine0) (pipe machine0) (pending machine0) 4 3.

(** The same machine with data-cache lines of 32 bytes and
    instruction-cache lines of 64. *)
Definition machine_skewed_back : machine :=
  mk_machine (pc machine0) (sp machine0) (xreg machine0) (mem machine0) (dcache machine0)
             (icache machine0) (pipe machine0) (pending machine0) 3 4.

(** Another core that fetched the buffer's first word into its pipeline
    before anything was written there. *)
Definition peer0 : peer :=
  peer_prefetch 12288 machine0 (mk_peer (fun _ => None) (fun _ => None) 4).

End Demo.

(** ** The texts on concrete allocations *)

Example selfbar_substituted :
  substitute [("p", 3%nat)] Copy (template selfbar_asm) =
  Some (("dc cvau,x3" ++ LF ++ TAB) ++ ("dsb sy" ++ LF ++ TAB) ++
        ("ic ivau,x3" ++ LF ++ TAB) ++ ("dsb sy" ++ LF ++ TAB) ++ "isb").
Proof. reflexivity. Qed.

Example getret_substituted :
  substitute [("x1", 8%nat); ("x2", 9%nat)] Copy (template getret_asm) =
  Some (("adr x8,0f" ++ LF ++ TAB) ++ ("ldr w9,[x8]" ++ LF ++ TAB) ++
        ("b 1f" ++ LF) ++ ("0:" ++ LF ++ TAB) ++ ("ret" ++ LF) ++ ("1:" ++ LF)).
Proof. reflexivity. Qed.

Example getret_read :
  statements getret_asm [("x1", 8%nat); ("x2", 9%nat)] =
  Some [SAdr 8 (Fwd 0); SLdrW 9 8; SB (Fwd 1); SLabel 0; SRet; SLabel 1].
Proof. reflexivity. Qed.

Example selfbar_words :
  text_of selfbar_asm [("p", 3%nat)] =
  [0xD50B7B23; 0xD5033F9F; 0xD50B7523; 0xD5033F9F; 0xD5033FDF].
Proof. reflexivity. Qed.

Example getret_words :
  text_of getret_asm [("x1", 8%nat); ("x2", 9%nat)] =
  [0x10000068; 0xB9400109; 0x14000002; 0xD65F03C0].
Proof. reflexivity. Qed.

(** An early-clobber output may not share its register; x31 is not a
    general register. *)
Example allocations_refused :
  valid_allocation getret_asm [("x1", 8%nat); ("x2", 8%nat)] = false /\
  valid_allocation selfbar_asm [("p", 31%nat)] = false.
Proof. split; reflexivity. Qed.

(** ** Bytes, words and cache lines *)

Section Arithmetic.

Lemma le32_byte_of (w : Z) :
  le32 (byte_of w 0) (byte_of w 1) (byte_of w 2) (byte_of w 3) = w mod 2 ^ 32.
Proof.
  unfold le32, byte_of.
  change (2 ^ (8 * 0)) with 1. change (2 ^ (8 * 1)) with 256.
  change (2 ^ (8 * 2)) with 65536. change (2 ^ (8 * 3)) with 16777216.
  change (2 ^ 32) with 4294967296.
  Z.div_mod_to_equations. lia.
Qed.

Lemma line_bytes_pos (n : nat) : 0 < line_bytes n.
Proof.
  unfold line_bytes.
  assert (0 < 2 ^ Z.of_nat n) by (apply Z.pow_pos_nonneg; lia). lia.
Qed.

(** The four bytes of an aligned word lie in one cache line. *)
Lemma word_in_line (n : nat) (a i : Z) :
  a mod 4 = 0 -> 0 <= i < 4 -> (a + i) / line_bytes n = a / line_bytes n.
Proof.
  intros Ha Hi. unfold line_bytes.
  assert (0 < 2 ^ Z.of_nat n) by (apply Z.pow_pos_nonneg; lia).
  rewrite <- !Z.div_div by lia. f_equal.
  Z.div_mod_to_equations. lia.
Qed.

End Arithmetic.

(** ** Coherence of a byte and of an instruction word *)

Section Stability.

Ltac unfold_state :=
  unfold next, setX, with_pc, with_xreg, with_data, with_icache, with_pipe,
    with_pending, clean_line, inval_line, store32 in *; simpl in *.

Lemma complete_frame (m : maint) (s : machine) :
  pc (complete m s) = pc s /\ sp (complete m s) = sp s /\
  xreg (complete m s) = xreg s /\ pipe (complete m s) = pipe s /\
  pending (complete m s) = pending s /\
  dminline (complete m s) = dminline s /\ iminline (complete m s) = iminline s.
Proof. destruct m; repeat split. Qed.

Lemma apply_hw_frame (h : hw_action) (s : machine) :
  pc (apply_hw h s) = pc s /\ sp (apply_hw h s) = sp s /\
  xreg (apply_hw h s) = xreg s /\
  dminline (apply_hw h s) = dminline s /\ iminline (apply_hw h s) = iminline s.
Proof.
  destruct h; simpl; try (repeat split; fail).
  destruct (nth_error (pending s) n) as [m|]; [|repeat split].
  destruct m; repeat split.
Qed.

Lemma apply_all_frame (hs : list hw_action) (s : machine) :
  pc (apply_all hs s) = pc s /\ sp (apply_all hs s) = sp s /\
  xreg (apply_all hs s) = xreg s /\
  dminline (apply_all hs s) = dminline s /\ iminline (apply_all hs s) = iminline s.
Proof.
  revert s. induction hs as [|h hs IH]; intros s; simpl; [repeat split|].
  destruct (IH (apply_hw h s)) as (H1 & H2 & H3 & H4 & H5).
  destruct (apply_hw_frame h s) as (G1 & G2 & G3 & G4 & G5).
  repeat split; congruence.
Qed.

(** *** Completing a maintenance operation *)

Lemma data_byte_complete (m : maint) (s : machine) (x : Z) :
  data_byte (complete m s) x = data_byte s x.
Proof.
  destruct m; unfold data_byte; unfold_state; [|reflexivity].
  destruct (dline s x =? dline s va); reflexivity.
Qed.

Lemma clean_at_complete (m : maint) (s : machine) (x b : Z) :
  clean_at s x b -> clean_at (complete m s) x b.
Proof.
  intros [Hm Hd]. destruct m; [|split; assumption].
  unfold clean_at; unfold_state.
  destruct (dline s x =? dline s va); split; auto.
  unfold data_byte. rewrite Hd. exact Hm.
Qed.

Lemma icache_ok_complete (m : maint) (s : machine) (x b : Z) :
  icache_ok s x b -> icache_ok (complete m s) x b.
Proof.
  intros H. destruct m; unfold icache_ok; unfold_state; [exact H|].
  destruct (iline s x =? iline s va); [left; reflexivity | exact H].
Qed.

Lemma data_byte_complete_all (l : list maint) (s : machine) (x : Z) :
  data_byte (complete_all l s) x = data_byte s x.
Proof.
  revert s. induction l as [|m l IH]; intros s; simpl; [reflexivity|].
  unfold complete_all in IH. rewrite IH. apply data_byte_complete.
Qed.

Lemma clean_at_complete_all (l : list maint) (s : machine) (x b : Z) :
  clean_at s x b -> clean_at (complete_all l s) x b.
Proof.
  revert s. induction l as [|m l IH]; intros s H; simpl; [exact H|].
  apply IH, clean_at_complete, H.
Qed.

Lemma icache_ok_complete_all (l : list maint) (s : machine) (x b : Z) :
  icache_ok s x b -> icache_ok (complete_all l s) x b.
Proof.
  revert s. induction l as [|m l IH]; intros s H; simpl; [exact H|].
  apply IH, icache_ok_complete, H.
Qed.

Lemma complete_all_frame (l : list maint) (s : machine) :
  pc (complete_all l s) = pc s /\ sp (complete_all l s) = sp s /\
  xreg (complete_all l s) = xreg s /\ pipe (complete_all l s) = pipe s /\
  dminline (complete_all l s) = dminline s /\ iminline (complete_all l s) = iminline s.
Proof.
  revert s. induction l as [|m l IH]; intros s; simpl; [repeat split|].
  destruct (IH (complete m s)) as (H1 & H2 & H3 & H4 & H5 & H6).
  destruct (complete_frame m s) as (G1 & G2 & G3 & G4 & G5 & G6 & G7).
  unfold complete_all in *. repeat split; congruence.
Qed.

(** *** Actions of the hardware and of other observers *)

Lemma data_byte_hw (h : hw_action) (s : machine) (x : Z) :
  spares x h -> data_byte (apply_hw h s) x = data_byte s x.
Proof.
  intros Hq. destruct h as [va|va|va|a|n|a c]; simpl in *; try reflexivity.
  - apply (data_byte_complete (CleanD va)).
  - destruct (nth_error (pending s) n) as [m|]; [|reflexivity].
    rewrite <- (data_byte_complete m s x). reflexivity.
  - unfold data_byte; simpl. destruct (x =? a) eqn:E; [|reflexivity].
    apply Z.eqb_eq in E. congruence.
Qed.

Lemma clean_at_hw (h : hw_action) (s : machine) (x b : Z) :
  spares x h -> clean_at s x b -> clean_at (apply_hw h s) x b.
Proof.
  intros Hq H. destruct h as [va|va|va|a|n|a c]; simpl in *; try exact H.
  - apply (clean_at_complete (CleanD va)), H.
  - destruct (nth_error (pending s) n) as [m|]; [|exact H].
    apply (clean_at_complete m) in H. exact H.
  - destruct H as [Hm Hd]. split; simpl; [exact Hm|].
    destruct (x =? a) eqn:E; [|exact Hd]. apply Z.eqb_eq in E. congruence.
Qed.

Lemma icache_ok_hw (h : hw_action) (s : machine) (x b : Z) :
  mem s x = b -> icache_ok s x b -> icache_ok (apply_hw h s) x b.
Proof.
  intros Hm H. destruct h as [va|va|va|a|n|a c]; simpl in *; try exact H.
  - unfold icache_ok; simpl. destruct (iline s x =? iline s va); [|exact H].
    right. congruence.
  - apply (icache_ok_complete (InvalI va)), H.
  - destruct (nth_error (pending s) n) as [m|]; [|exact H].
    apply (icache_ok_complete m) in H. exact H.
Qed.

Lemma synced_byte_hw (h : hw_action) (s : machine) (x b : Z) :
  spares x h -> synced_byte s x b -> synced_byte (apply_hw h s) x b.
Proof.
  intros Hq [Hc Hi]. split.
  - apply clean_at_hw; assumption.
  - apply icache_ok_hw; [apply Hc | exact Hi].
Qed.

Lemma synced_byte_inst (s : machine) (x b : Z) :
  synced_byte s x b -> inst_byte s x = b.
Proof.
  intros [[Hm _] [Hi|Hi]]; unfold inst_byte; rewrite Hi; auto.
Qed.

Lemma synced_byte_data (s : machine) (x b : Z) :
  synced_byte s x b -> data_byte s x = b.
Proof.
  intros [[Hm Hd] _]. unfold data_byte. rewrite Hd. exact Hm.
Qed.

Lemma holds_icache_read (s : machine) (a w : Z) :
  holds s a w -> icache_read32 s a = w mod 2 ^ 32.
Proof.
  intros (H0 & H1 & H2 & H3 & _). unfold icache_read32.
  rewrite (synced_byte_inst _ _ _ H0), (synced_byte_inst _ _ _ H1),
    (synced_byte_inst _ _ _ H2), (synced_byte_inst _ _ _ H3).
  apply le32_byte_of.
Qed.

Lemma holds_fetch (s : machine) (a w : Z) :
  holds s a w -> fetch32 s a = w mod 2 ^ 32.
Proof.
  intros H. unfold fetch32.
  destruct H as (H0 & H1 & H2 & H3 & [Hp|Hp]) eqn:E; rewrite Hp;
    [apply holds_icache_read; exact H | reflexivity].
Qed.

Lemma holds_load (s : machine) (a w : Z) :
  holds s a w -> load32 s a = w mod 2 ^ 32.
Proof.
  intros (H0 & H1 & H2 & H3 & _). unfold load32.
  rewrite (synced_byte_data _ _ _ H0), (synced_byte_data _ _ _ H1),
    (synced_byte_data _ _ _ H2), (synced_byte_data _ _ _ H3).
  apply le32_byte_of.
Qed.

Lemma pipe_ok_hw (h : hw_action) (s : machine) (a w : Z) :
  holds s a w -> pipe_ok (apply_hw h s) a w.
Proof.
  intros H. pose proof H as (_ & _ & _ & _ & Hp).
  destruct h as [va|va|va|a0|n|a0 c]; simpl; try exact Hp.
  - unfold pipe_ok; simpl. destruct (a =? a0) eqn:E; [|exact Hp].
    apply Z.eqb_eq in E. subst a0. right. f_equal. apply holds_icache_read, H.
  - destruct (nth_error (pending s) n) as [m|]; [|exact Hp].
    destruct m; exact Hp.
Qed.

Lemma no_store_in_spares (lo hi x : Z) (h : hw_action) :
  no_store_in lo hi h = true -> lo <= x < hi -> spares x h.
Proof.
  destruct h; simpl; auto. intros H Hx.
  apply orb_true_iff in H. destruct H as [H|H]; [apply Z.ltb_lt in H | apply Z.leb_le in H]; lia.
Qed.

Lemma holds_hw (h : hw_action) (s : machine) (a w : Z) :
  no_store_in a (a + 4) h = true -> holds s a w -> holds (apply_hw h s) a w.
Proof.
  intros Hq H. pose proof H as (H0 & H1 & H2 & H3 & Hp).
  assert (Hs : forall i, 0 <= i < 4 -> spares (a + i) h)
    by (intros i Hi; eapply no_store_in_spares; [exact Hq | lia]).
  pose proof (Hs 0) as S0. rewrite Z.add_0_r in S0.
  refine (conj _ (conj _ (conj _ (conj _ _)))).
  - apply synced_byte_hw; [apply S0; lia | exact H0].
  - apply synced_byte_hw; [apply Hs; lia | exact H1].
  - apply synced_byte_hw; [apply Hs; lia | exact H2].
  - apply synced_byte_hw; [apply Hs; lia | exact H3].
  - apply pipe_ok_hw, H.
Qed.

End Stability.

(** ** What the assembler and the decoder do for every allocation *)

Section Registers.

Lemma decodes_back_ok (i : instr) :
  decodes_back i = true -> decode (encode i mod 2 ^ 32) = Some i.
Proof.
  unfold decodes_back. destruct (decode (encode i mod 2 ^ 32)) as [j|]; [|discriminate].
  destruct (instr_eq_dec i j); [congruence | discriminate].
Qed.

Lemma assembles_to_ok a al code : assembles_to a al code = true -> assemble a al = Some code.
Proof.
  unfold assembles_to. destruct (assemble a al) as [c|]; [|discriminate].
  destruct (list_eq_dec instr_eq_dec c code); [congruence | discriminate].
Qed.

Lemma below (n : nat) (f : nat -> bool) :
  forallb f (seq 0 n) = true -> forall r, (r < n)%nat -> f r = true.
Proof.
  intros H r Hr. rewrite forallb_forall in H. apply H, in_seq. lia.
Qed.

Lemma decode_one_reg (r : nat) :
  (r < 31)%nat ->
  decode (encode (DC_CVAU r) mod 2 ^ 32) = Some (DC_CVAU r) /\
  decode (encode (IC_IVAU r) mod 2 ^ 32) = Some (IC_IVAU r) /\
  decode (encode (ADR r 12) mod 2 ^ 32) = Some (ADR r 12) /\
  decode (encode (RET r) mod 2 ^ 32) = Some (RET r).
Proof.
  intros Hr.
  assert (H : forallb (fun r => decodes_back (DC_CVAU r) && decodes_back (IC_IVAU r) &&
                                decodes_back (ADR r 12) && decodes_back (RET r))
                      (seq 0 31) = true) by (vm_compute; reflexivity).
  apply (below _ _ H) in Hr.
  repeat (apply andb_true_iff in Hr; destruct Hr as [Hr ?]).
  repeat split; apply decodes_back_ok; assumption.
Qed.

Lemma decode_ldr (rt rn : nat) :
  (rt < 31)%nat -> (rn < 31)%nat ->
  decode (encode (LDR_W rt rn 0) mod 2 ^ 32) = Some (LDR_W rt rn 0).
Proof.
  intros Ht Hn.
  assert (H : forallb (fun t => forallb (fun n => decodes_back (LDR_W t n 0)) (seq 0 31))
                      (seq 0 31) = true) by (vm_compute; reflexivity).
  apply (below _ _ H) in Ht. apply (below _ _ Ht) in Hn.
  apply decodes_back_ok, Hn.
Qed.

Lemma decode_fixed :
  decode (encode DSB_SY mod 2 ^ 32) = Some DSB_SY /\
  decode (encode ISB mod 2 ^ 32) = Some ISB /\
  decode (encode (B 8) mod 2 ^ 32) = Some (B 8).
Proof. repeat split. Qed.

Lemma valid_selfbar (rp : nat) :
  valid_allocation selfbar_asm [("p", rp)] = true -> (rp < 31)%nat.
Proof.
  unfold valid_allocation, allocated, general_reg. simpl.
  intros H. apply andb_true_iff in H. destruct H as [H _].
  apply andb_true_iff in H. destruct H as [H _]. apply Nat.ltb_lt, H.
Qed.

Lemma valid_getret (rx1 rx2 : nat) :
  valid_allocation getret_asm [("x1", rx1); ("x2", rx2)] = true ->
  (rx1 < 31)%nat /\ (rx2 < 31)%nat /\ rx1 <> rx2.
Proof.
  unfold valid_allocation, allocated, general_reg, distinct_from_others. simpl.
  intros H.
  repeat match goal with
         | H : _ && _ = true |- _ => apply andb_true_iff in H; destruct H
         end.
  repeat match goal with
         | H : (_ <? _)%nat = true |- _ => apply Nat.ltb_lt in H
         | H : negb (_ =? _)%nat = true |- _ => apply negb_true_iff, Nat.eqb_neq in H
         end.
  repeat split; auto.
Qed.

Lemma selfbar_code (rp : nat) :
  valid_allocation selfbar_asm [("p", rp)] = true ->
  assemble selfbar_asm [("p", rp)] = Some [DC_CVAU rp; DSB_SY; IC_IVAU rp; DSB_SY; ISB].
Proof.
  intros H. apply valid_selfbar in H.
  assert (A : forallb (fun r => assembles_to selfbar_asm [("p", r)]
                                  [DC_CVAU r; DSB_SY; IC_IVAU r; DSB_SY; ISB])
                      (seq 0 31) = true) by (vm_compute; reflexivity).
  apply assembles_to_ok, (below _ _ A), H.
Qed.

Lemma getret_code (rx1 rx2 : nat) :
  valid_allocation getret_asm [("x1", rx1); ("x2", rx2)] = true ->
  assemble getret_asm [("x1", rx1); ("x2", rx2)] =
  Some [ADR rx1 12; LDR_W rx2 rx1 0; B 8; RET 30].
Proof.
  intros H. apply valid_getret in H. destruct H as (H1 & H2 & _).
  assert (A : forallb (fun r1 => forallb (fun r2 =>
                assembles_to getret_asm [("x1", r1); ("x2", r2)]
                  [ADR r1 12; LDR_W r2 r1 0; B 8; RET 30]) (seq 0 31))
                      (seq 0 31) = true) by (vm_compute; reflexivity).
  apply (below _ _ A) in H1. apply (below _ _ H1) in H2.
  apply assembles_to_ok, H2.
Qed.

Lemma reads_as_ok a al ss : reads_as a al ss = true -> statements a al = Some ss.
Proof.
  unfold reads_as. destruct (statements a al) as [c|]; [|discriminate].
  destruct (list_eq_dec stmt_eq_dec c ss); [congruence | discriminate].
Qed.

Lemma getret_statements (rx1 rx2 : nat) :
  valid_allocation getret_asm [("x1", rx1); ("x2", rx2)] = true ->
  statements getret_asm [("x1", rx1); ("x2", rx2)] =
  Some [SAdr rx1 (Fwd 0); SLdrW rx2 rx1; SB (Fwd 1); SLabel 0; SRet; SLabel 1].
Proof.
  intros H. apply valid_getret in H. destruct H as (H1 & H2 & _).
  assert (A : forallb (fun r1 => forallb (fun r2 =>
                reads_as getret_asm [("x1", r1); ("x2", r2)]
                  [SAdr r1 (Fwd 0); SLdrW r2 r1; SB (Fwd 1); SLabel 0; SRet; SLabel 1])
                (seq 0 31)) (seq 0 31) = true) by (vm_compute; reflexivity).
  apply (below _ _ A) in H1. apply (below _ _ H1) in H2.
  apply reads_as_ok, H2.
Qed.

End Registers.

(** ** Instructions: what they keep and what they establish *)

Section Steps.

Lemma holds_same (s s' : machine) (a w : Z) :
  mem s' = mem s -> dcache s' = dcache s -> icache s' = icache s -> pipe s' = pipe s ->
  holds s a w -> holds s' a w.
Proof.
  unfold holds, synced_byte, clean_at, icache_ok, pipe_ok.
  intros -> -> -> ->. auto.
Qed.

Lemma holds_apply_all (hs : list hw_action) (s : machine) (a w : Z) :
  forallb (no_store_in a (a + 4)) hs = true -> holds s a w -> holds (apply_all hs s) a w.
Proof.
  revert s. induction hs as [|h hs IH]; intros s Hq H; simpl in *; [exact H|].
  apply andb_true_iff in Hq. destruct Hq as [Hh Hq].
  apply IH; [exact Hq | apply holds_hw; assumption].
Qed.

Lemma holds_exec (i : instr) (s : machine) (a w : Z) :
  holds s a w -> holds (snd (exec i s)) a w.
Proof.
  intros H. destruct i; simpl;
    try (eapply holds_same; [| | | | exact H]; reflexivity);
    try (unfold setX; destruct (Nat.eqb _ 31);
         eapply holds_same; [| | | | exact H]; reflexivity).
  - destruct H as (H0 & H1 & H2 & H3 & Hp).
    destruct (complete_all_frame (pending s) s) as (_ & _ & _ & Hpipe & _).
    assert (K : forall x b, synced_byte s x b ->
                            synced_byte (next (with_pending [] (complete_all (pending s) s))) x b).
    { intros x b [Hc Hi]. split.
      - exact (clean_at_complete_all _ _ _ _ Hc).
      - exact (icache_ok_complete_all _ _ _ _ Hi). }
    refine (conj (K _ _ H0) (conj (K _ _ H1) (conj (K _ _ H2) (conj (K _ _ H3) _)))).
    unfold pipe_ok in *. simpl. rewrite Hpipe. exact Hp.
  - destruct H as (H0 & H1 & H2 & H3 & Hp).
    refine (conj H0 (conj H1 (conj H2 (conj H3 _)))). left. reflexivity.
  - unfold setX. destruct (Nat.eqb rd 31);
      (eapply holds_same; [| | | | exact H]; reflexivity).
  - unfold setX. destruct (Nat.eqb rt 31);
      (eapply holds_same; [| | | | exact H]; reflexivity).
Qed.

Lemma no_store_in_narrow (lo hi lo' hi' : Z) (hs : list hw_action) :
  lo <= lo' -> hi' <= hi ->
  forallb (no_store_in lo hi) hs = true -> forallb (no_store_in lo' hi') hs = true.
Proof.
  intros Hl Hh H. rewrite forallb_forall in *. intros h Hin. specialize (H h Hin).
  destruct h; simpl in *; auto.
  apply orb_true_iff in H. apply orb_true_iff.
  destruct H as [H|H]; [left; apply Z.ltb_lt in H; apply Z.ltb_lt
                       | right; apply Z.leb_le in H; apply Z.leb_le]; lia.
Qed.

Lemma holds_after (i : instr) (hs : list hw_action) (s : machine) (a w : Z) :
  forallb (no_store_in a (a + 4)) hs = true -> holds s a w -> holds (after i hs s) a w.
Proof. intros Hq H. apply holds_exec, holds_apply_all; assumption. Qed.

Lemma loaded_after (i : instr) (hs : list hw_action) (s : machine) (a : Z) (ws : list Z) :
  forallb (no_store_in a (a + 4 * Z.of_nat (List.length ws))) hs = true ->
  loaded s a ws -> loaded (after i hs s) a ws.
Proof.
  revert a. induction ws as [|w ws IH]; intros a Hq H; [exact I|].
  destruct H as [Hw Hrest]. cbn [List.length] in Hq. split.
  - apply holds_after; [|exact Hw]. eapply no_store_in_narrow; [| |exact Hq]; lia.
  - apply IH; [|exact Hrest]. eapply no_store_in_narrow; [| |exact Hq]; lia.
Qed.

Lemma loaded_apply_all (hs : list hw_action) (s : machine) (a : Z) (ws : list Z) :
  forallb (no_store_in a (a + 4 * Z.of_nat (List.length ws))) hs = true ->
  loaded s a ws -> loaded (apply_all hs s) a ws.
Proof.
  revert a. induction ws as [|w ws IH]; intros a Hq H; [exact I|].
  destruct H as [Hw Hrest]. cbn [List.length] in Hq. split.
  - apply holds_apply_all; [|exact Hw]. eapply no_store_in_narrow; [| |exact Hq]; lia.
  - apply IH; [|exact Hrest]. eapply no_store_in_narrow; [| |exact Hq]; lia.
Qed.

Lemma loaded_same (s s' : machine) (a : Z) (ws : list Z) :
  mem s' = mem s -> dcache s' = dcache s -> icache s' = icache s -> pipe s' = pipe s ->
  loaded s a ws -> loaded s' a ws.
Proof.
  intros Hm Hd Hi Hp. revert a. induction ws as [|w ws IH]; intros a H; [exact I|].
  destruct H as [Hw Hrest]. split; [eapply holds_same; eauto | auto].
Qed.

Lemma holds_fetches (s : machine) (i : instr) :
  pc s mod 4 = 0 -> holds s (pc s) (encode i) ->
  decode (encode i mod 2 ^ 32) = Some i -> fetches s i.
Proof.
  intros Ha H Hd. unfold fetches, ifetch.
  apply Z.eqb_eq in Ha. rewrite Ha. rewrite (holds_fetch _ _ _ H). exact Hd.
Qed.

Lemma run_done (fuel : nat) (stop : Z) sch (n : nat) (s : machine) :
  pc s = stop -> run fuel stop sch n s = Done [] s.
Proof. intros H. apply Z.eqb_eq in H. destruct fuel; simpl; rewrite H; reflexivity. Qed.

Lemma run_step (fuel : nat) (stop : Z) sch (n : nat) (s : machine) (i : instr) :
  pc s <> stop -> fetches (apply_all (sch n) s) i ->
  run (S fuel) stop sch n s =
  match run fuel stop sch (S n) (after i (sch n) s) with
  | Done tr s' => Done (fst (exec i (apply_all (sch n) s)) :: tr) s'
  | other => other
  end.
Proof.
  intros Hne Hf. apply Z.eqb_neq in Hne. simpl. rewrite Hne.
  unfold step. unfold fetches in Hf.
  destruct (ifetch (apply_all (sch n) s) (pc (apply_all (sch n) s))) as [w|]; [|contradiction].
  rewrite Hf. unfold after. destruct (exec i (apply_all (sch n) s)) as [o s']. reflexivity.
Qed.

Lemma after_frame (i : instr) (hs : list hw_action) (s : machine) :
  dminline (after i hs s) = dminline s /\ iminline (after i hs s) = iminline s /\
  sp (after i hs s) = sp s.
Proof.
  unfold after. destruct (apply_all_frame hs s) as (_ & H2 & _ & H4 & H5).
  destruct i; simpl; try (unfold setX; destruct (Nat.eqb _ 31)); simpl;
    try (repeat split; assumption).
  destruct (complete_all_frame (pending (apply_all hs s)) (apply_all hs s))
    as (_ & G2 & _ & _ & G5 & G6).
  repeat split; congruence.
Qed.

Lemma after_pc (i : instr) (hs : list hw_action) (s : machine) :
  falls_through i = true -> pc (after i hs s) = wrap64 (pc s + 4).
Proof.
  intros Hf. unfold after. destruct (apply_all_frame hs s) as (H1 & _).
  destruct i; try discriminate; simpl; try rewrite H1; try reflexivity.
  - destruct (complete_all_frame (pending (apply_all hs s)) (apply_all hs s)) as (G & _).
    rewrite G, H1. reflexivity.
  - unfold setX. destruct (Nat.eqb rd 31); simpl; rewrite H1; reflexivity.
  - unfold setX. destruct (Nat.eqb rt 31); simpl; rewrite H1; reflexivity.
Qed.

Lemma getX_apply_all (hs : list hw_action) (s : machine) (r : nat) :
  getX (apply_all hs s) r = getX s r.
Proof.
  destruct (apply_all_frame hs s) as (_ & _ & H & _). unfold getX. rewrite H. reflexivity.
Qed.

Lemma after_xreg (i : instr) (hs : list hw_action) (s : machine) :
  keeps_regs i = true -> xreg (after i hs s) = xreg s.
Proof.
  intros Hk. unfold after. destruct (apply_all_frame hs s) as (_ & _ & H & _).
  destruct i; try discriminate; simpl; try exact H.
  destruct (complete_all_frame (pending (apply_all hs s)) (apply_all hs s)) as (_ & _ & G & _).
  congruence.
Qed.

End Steps.

(** ** From written to fetched: the phases of the barrier *)

Section Phases.

Lemma dline_hw (h : hw_action) (s : machine) (x : Z) : dline (apply_hw h s) x = dline s x.
Proof.
  destruct (apply_hw_frame h s) as (_ & _ & _ & H & _). unfold dline. rewrite H. reflexivity.
Qed.

Lemma iline_hw (h : hw_action) (s : machine) (x : Z) : iline (apply_hw h s) x = iline s x.
Proof.
  destruct (apply_hw_frame h s) as (_ & _ & _ & _ & H). unfold iline. rewrite H. reflexivity.
Qed.

Lemma dline_complete (m : maint) (s : machine) (x : Z) : dline (complete m s) x = dline s x.
Proof. destruct m; reflexivity. Qed.

Lemma iline_complete (m : maint) (s : machine) (x : Z) : iline (complete m s) x = iline s x.
Proof. destruct m; reflexivity. Qed.

Lemma in_remove_nth {A} (y m : A) (n : nat) (l : list A) :
  In y l -> nth_error l n = Some m -> y = m \/ In y (remove_nth n l).
Proof.
  unfold remove_nth. revert n. induction l as [|a l IH]; intros n Hin Hn; [contradiction|].
  destruct n as [|n]; simpl in *.
  - injection Hn as <-. destruct Hin as [->|Hin]; auto.
  - destruct Hin as [->|Hin]; [right; left; reflexivity|].
    destruct (IH n Hin Hn) as [->|H]; auto.
Qed.

Lemma dcache_none_complete (m : maint) (s : machine) (x : Z) :
  dcache s x = None -> dcache (complete m s) x = None.
Proof.
  intros H. destruct m; simpl; [|exact H].
  destruct (dline s x =? dline s va); auto.
Qed.

Lemma complete_cleans (va : Z) (s : machine) (x : Z) :
  dline s x = dline s va -> dcache (complete (CleanD va) s) x = None.
Proof. intros H. simpl. rewrite H, Z.eqb_refl. reflexivity. Qed.

Lemma complete_invalidates (va : Z) (s : machine) (x b : Z) :
  iline s x = iline s va -> icache_ok (complete (InvalI va) s) x b.
Proof. intros H. left. simpl. rewrite H, Z.eqb_refl. reflexivity. Qed.

(** *** While the clean is in flight *)

Lemma cleaning_complete (m : maint) (n : nat) (s : machine) (x b : Z) :
  nth_error (pending s) n = Some m -> cleaning s x b ->
  cleaning (with_pending (remove_nth n (pending s)) (complete m s)) x b.
Proof.
  intros Hn [Hd Hc]. split.
  - rewrite <- Hd. exact (data_byte_complete m s x).
  - destruct Hc as [Hc|(va & Hin & Hl)].
    + left. exact (dcache_none_complete m s x Hc).
    + destruct (in_remove_nth _ _ _ _ Hin Hn) as [<-|Hin'].
      * left. exact (complete_cleans va s x Hl).
      * right. exists va. split; [exact Hin'|].
        change (dline (complete m s) x = dline (complete m s) va).
        rewrite !dline_complete. exact Hl.
Qed.

Lemma cleaning_hw (h : hw_action) (s : machine) (x b : Z) :
  spares x h -> cleaning s x b -> cleaning (apply_hw h s) x b.
Proof.
  intros Hq H. destruct h as [va|va|va|a|n|a c]; simpl in *; try exact H.
  - destruct H as [Hd Hc]. split.
    + rewrite <- Hd. exact (data_byte_complete (CleanD va) s x).
    + destruct Hc as [Hc|Hc]; [left; exact (dcache_none_complete (CleanD va) s x Hc)|].
      right. exact Hc.
  - destruct (nth_error (pending s) n) as [m|] eqn:E; [|exact H].
    apply cleaning_complete; assumption.
  - destruct H as [Hd Hc]. split.
    + rewrite <- Hd. exact (data_byte_hw (Store a c) s x Hq).
    + destruct Hc as [Hc|Hc]; [left | right; exact Hc].
      simpl. destruct (x =? a) eqn:E; [|exact Hc]. apply Z.eqb_eq in E. congruence.
Qed.

Lemma cleaning_apply_all (hs : list hw_action) (s : machine) (x b : Z) :
  Forall (spares x) hs -> cleaning s x b -> cleaning (apply_all hs s) x b.
Proof.
  intros Hq. revert s. induction Hq as [|h hs Hh Hq IH]; intros s H; simpl; [exact H|].
  apply IH, cleaning_hw; assumption.
Qed.

Lemma data_byte_apply_all (hs : list hw_action) (s : machine) (x : Z) :
  Forall (spares x) hs -> data_byte (apply_all hs s) x = data_byte s x.
Proof.
  intros Hq. revert s. induction Hq as [|h hs Hh Hq IH]; intros s; simpl; [reflexivity|].
  rewrite IH. apply data_byte_hw, Hh.
Qed.

Lemma clean_at_apply_all (hs : list hw_action) (s : machine) (x b : Z) :
  Forall (spares x) hs -> clean_at s x b -> clean_at (apply_all hs s) x b.
Proof.
  intros Hq. revert s. induction Hq as [|h hs Hh Hq IH]; intros s H; simpl; [exact H|].
  apply IH, clean_at_hw; assumption.
Qed.

Lemma synced_byte_apply_all (hs : list hw_action) (s : machine) (x b : Z) :
  Forall (spares x) hs -> synced_byte s x b -> synced_byte (apply_all hs s) x b.
Proof.
  intros Hq. revert s. induction Hq as [|h hs Hh Hq IH]; intros s H; simpl; [exact H|].
  apply IH, synced_byte_hw; assumption.
Qed.

Lemma complete_all_cleans (l : list maint) (s : machine) (x b : Z) :
  data_byte s x = b ->
  (dcache s x = None \/ exists va, In (CleanD va) l /\ dline s x = dline s va) ->
  clean_at (complete_all l s) x b.
Proof.
  revert s. induction l as [|m l IH]; intros s Hd Hc; simpl.
  - destruct Hc as [Hc|(va & [] & _)]. unfold data_byte in Hd. rewrite Hc in Hd.
    split; assumption.
  - apply IH; [rewrite data_byte_complete; exact Hd|].
    destruct Hc as [Hc|(va & [->|Hin] & Hl)].
    + left. apply dcache_none_complete, Hc.
    + left. apply complete_cleans, Hl.
    + right. exists va. split; [exact Hin|]. rewrite !dline_complete. exact Hl.
Qed.

(** *** While the invalidate is in flight *)

Lemma invalidating_complete (m : maint) (n : nat) (s : machine) (x b : Z) :
  nth_error (pending s) n = Some m -> invalidating s x b ->
  invalidating (with_pending (remove_nth n (pending s)) (complete m s)) x b.
Proof.
  intros Hn [Hc Hi]. split; [exact (clean_at_complete m s x b Hc)|].
  destruct Hi as [Hi|(va & Hin & Hl)].
  - left. exact (icache_ok_complete m s x b Hi).
  - destruct (in_remove_nth _ _ _ _ Hin Hn) as [<-|Hin'].
    + left. exact (complete_invalidates va s x b Hl).
    + right. exists va. split; [exact Hin'|].
      change (iline (complete m s) x = iline (complete m s) va).
      rewrite !iline_complete. exact Hl.
Qed.

Lemma invalidating_hw (h : hw_action) (s : machine) (x b : Z) :
  spares x h -> invalidating s x b -> invalidating (apply_hw h s) x b.
Proof.
  intros Hq H. destruct h as [va|va|va|a|n|a c].
  - destruct H as [Hc Hi]. split; [exact (clean_at_hw (Evict va) s x b Hq Hc)|].
    destruct Hi as [Hi|Hi]; [left; exact Hi | right; exact Hi].
  - destruct H as [Hc Hi]. split; [exact Hc|].
    destruct (iline s x =? iline s va) eqn:E.
    + left. right. simpl. rewrite E. f_equal. apply Hc.
    + destruct Hi as [Hi|Hi]; [left | right; exact Hi].
      unfold icache_ok. simpl. rewrite E. exact Hi.
  - destruct H as [Hc Hi]. split; [exact Hc|].
    destruct Hi as [Hi|Hi]; [left | right; exact Hi].
    exact (icache_ok_complete (InvalI va) s x b Hi).
  - exact H.
  - simpl. destruct (nth_error (pending s) n) as [m|] eqn:E; [|exact H].
    apply invalidating_complete; assumption.
  - destruct H as [Hc Hi]. split; [exact (clean_at_hw (Store a c) s x b Hq Hc)|].
    exact Hi.
Qed.

Lemma invalidating_apply_all (hs : list hw_action) (s : machine) (x b : Z) :
  Forall (spares x) hs -> invalidating s x b -> invalidating (apply_all hs s) x b.
Proof.
  intros Hq. revert s. induction Hq as [|h hs Hh Hq IH]; intros s H; simpl; [exact H|].
  apply IH, invalidating_hw; assumption.
Qed.

Lemma complete_all_invalidates (l : list maint) (s : machine) (x b : Z) :
  (icache_ok s x b \/ exists va, In (InvalI va) l /\ iline s x = iline s va) ->
  icache_ok (complete_all l s) x b.
Proof.
  revert s. induction l as [|m l IH]; intros s Hi; simpl.
  - destruct Hi as [Hi|(va & [] & _)]. exact Hi.
  - apply IH. destruct Hi as [Hi|(va & [->|Hin] & Hl)].
    + left. apply icache_ok_complete, Hi.
    + left. apply complete_invalidates, Hl.
    + right. exists va. split; [exact Hin|]. rewrite !iline_complete. exact Hl.
Qed.

(** *** The five instructions, one by one *)

Lemma dc_cvau_starts (rt : nat) (s : machine) (x b : Z) :
  data_byte s x = b -> dline s x = dline s (getX s rt) ->
  cleaning (snd (exec (DC_CVAU rt) s)) x b.
Proof.
  intros Hd Hl. split; [exact Hd|]. right. exists (getX s rt). split; [|exact Hl].
  simpl. apply in_or_app. right. left. reflexivity.
Qed.

Lemma dsb_cleans (s : machine) (x b : Z) :
  cleaning s x b -> clean_at (snd (exec DSB_SY s)) x b.
Proof. intros [Hd Hc]. exact (complete_all_cleans (pending s) s x b Hd Hc). Qed.

Lemma ic_ivau_starts (rt : nat) (s : machine) (x b : Z) :
  clean_at s x b -> iline s x = iline s (getX s rt) ->
  invalidating (snd (exec (IC_IVAU rt) s)) x b.
Proof.
  intros Hc Hl. split; [exact Hc|]. right. exists (getX s rt). split; [|exact Hl].
  simpl. apply in_or_app. right. left. reflexivity.
Qed.

Lemma dsb_invalidates (s : machine) (x b : Z) :
  invalidating s x b -> synced_byte (snd (exec DSB_SY s)) x b.
Proof.
  intros [Hc Hi]. split.
  - exact (clean_at_complete_all (pending s) s x b Hc).
  - exact (complete_all_invalidates (pending s) s x b Hi).
Qed.

Lemma isb_flushes (s : machine) (x b : Z) :
  synced_byte s x b ->
  synced_byte (snd (exec ISB s)) x b /\ forall a, pipe (snd (exec ISB s)) a = None.
Proof. intros H. split; [exact H | reflexivity]. Qed.

Lemma selfbar_final_syncs (rp : nat) (sch : nat -> list hw_action) (s : machine) (x b : Z) :
  data_byte s x = b ->
  dline s x = dline s (getX s rp) -> iline s x = iline s (getX s rp) ->
  (forall n, Forall (spares x) (sch n)) ->
  synced_byte (selfbar_final rp sch s) x b /\
  forall a, pipe (selfbar_final rp sch s) a = None.
Proof.
  intros Hd Hdl Hil Hq. unfold selfbar_final.
  set (s1 := after (DC_CVAU rp) (sch 0%nat) s).
  set (s2 := after DSB_SY (sch 1%nat) s1).
  set (s3 := after (IC_IVAU rp) (sch 2%nat) s2).
  set (s4 := after DSB_SY (sch 3%nat) s3).
  assert (F1 : cleaning s1 x b).
  { apply dc_cvau_starts.
    - rewrite data_byte_apply_all by apply Hq. exact Hd.
    - rewrite getX_apply_all.
      destruct (apply_all_frame (sch 0%nat) s) as (_ & _ & _ & E & _).
      unfold dline in *. rewrite E. exact Hdl. }
  assert (F2 : clean_at s2 x b).
  { apply dsb_cleans, cleaning_apply_all; [apply Hq | exact F1]. }
  assert (R2 : getX s2 rp = getX s rp /\ iminline s2 = iminline s).
  { unfold getX, s2, s1. rewrite !after_xreg by reflexivity.
    split; [reflexivity|].
    destruct (after_frame DSB_SY (sch 1%nat) (after (DC_CVAU rp) (sch 0%nat) s)) as (_ & E & _).
    destruct (after_frame (DC_CVAU rp) (sch 0%nat) s) as (_ & E' & _). congruence. }
  assert (F3 : invalidating s3 x b).
  { apply ic_ivau_starts.
    - apply clean_at_apply_all; [apply Hq | exact F2].
    - rewrite getX_apply_all.
      destruct (apply_all_frame (sch 2%nat) s2) as (_ & _ & _ & _ & E).
      destruct R2 as [Rx Ri]. unfold iline in *. rewrite E, Rx, Ri. exact Hil. }
  assert (F4 : synced_byte s4 x b).
  { apply dsb_invalidates, invalidating_apply_all; [apply Hq | exact F3]. }
  apply isb_flushes, synced_byte_apply_all; [apply Hq | exact F4].
Qed.

End Phases.

(** ** Running the two statements *)

Section Runs.

Lemma wrap64_small (v : Z) : 0 <= v < 2 ^ 64 -> wrap64 v = v.
Proof. intros H. unfold wrap64. apply Z.mod_small, H. Qed.

Lemma loaded_nth (s : machine) (base : Z) (ws : list Z) (k : nat) (w : Z) :
  loaded s base ws -> nth_error ws k = Some w -> holds s (base + 4 * Z.of_nat k) w.
Proof.
  revert base k. induction ws as [|v ws IH]; intros base k H Hn.
  - destruct k; discriminate.
  - destruct H as [Hv Hrest]. destruct k as [|k]; simpl in Hn.
    + injection Hn as <-. replace (base + 4 * Z.of_nat 0) with base by lia. exact Hv.
    + replace (base + 4 * Z.of_nat (S k)) with (base + 4 + 4 * Z.of_nat k) by lia.
      apply IH; assumption.
Qed.

Lemma fetches_loaded (s : machine) (base : Z) (ws : list Z) (k : nat) (i : instr)
      (hs : list hw_action) :
  loaded s base ws -> nth_error ws k = Some (encode i) ->
  decode (encode i mod 2 ^ 32) = Some i ->
  pc s = base + 4 * Z.of_nat k -> base mod 4 = 0 ->
  forallb (no_store_in base (base + 4 * Z.of_nat (List.length ws))) hs = true ->
  fetches (apply_all hs s) i.
Proof.
  intros Hl Hn Hd Hpc Hb Hq.
  destruct (apply_all_frame hs s) as (E & _).
  apply holds_fetches.
  - rewrite E, Hpc. replace (base + 4 * Z.of_nat k) with (base + Z.of_nat k * 4) by lia.
    rewrite Z_mod_plus_full. exact Hb.
  - rewrite E, Hpc. eapply loaded_nth; [|exact Hn]. apply loaded_apply_all; assumption.
  - exact Hd.
Qed.

(** One instruction of straight-line code. *)
Lemma straight_step (base : Z) (ws : list Z) (k : nat) (i : instr) (fuel : nat)
      (stop : Z) sch (n : nat) (s : machine) :
  loaded s base ws -> nth_error ws k = Some (encode i) ->
  decode (encode i mod 2 ^ 32) = Some i -> falls_through i = true ->
  pc s = base + 4 * Z.of_nat k -> base mod 4 = 0 ->
  0 <= base -> base + 4 * Z.of_nat k + 4 < 2 ^ 64 -> pc s <> stop ->
  forallb (no_store_in base (base + 4 * Z.of_nat (List.length ws))) (sch n) = true ->
  run (S fuel) stop sch n s =
    match run fuel stop sch (S n) (after i (sch n) s) with
    | Done tr s' => Done (fst (exec i (apply_all (sch n) s)) :: tr) s'
    | other => other
    end /\
  loaded (after i (sch n) s) base ws /\
  pc (after i (sch n) s) = base + 4 * Z.of_nat (S k).
Proof.
  intros Hl Hn Hd Hf Hpc Hb H0 Hhi Hne Hq. split; [|split].
  - apply run_step; [exact Hne|]. eapply fetches_loaded; eassumption.
  - apply loaded_after; assumption.
  - rewrite after_pc by exact Hf. rewrite Hpc, wrap64_small by lia. lia.
Qed.

Lemma getX_entry (base : Z) (rp : nat) (p : Z) (s : machine) :
  (rp < 31)%nat -> getX (with_pc base (setX rp p s)) rp = p.
Proof.
  intros H. unfold getX, setX.
  destruct (Nat.eqb rp 31) eqn:E; [apply Nat.eqb_eq in E; lia|].
  simpl. rewrite Nat.eqb_refl. reflexivity.
Qed.

Lemma selfbar_runs (base : Z) (rp : nat) (fuel : nat) sch (p : Z) (s : machine) :
  valid_allocation selfbar_asm [("p", rp)] = true ->
  base mod 4 = 0 -> 0 <= base -> base + 20 < 2 ^ 64 -> (5 <= fuel)%nat ->
  loaded s base (text_of selfbar_asm [("p", rp)]) ->
  (forall n, forallb (no_store_in base (base + 20)) (sch n) = true) ->
  selfbar base rp fuel sch p s =
  Returns [CleanDataToPoU p; DataSyncBarrier; InvalInstToPoU p; DataSyncBarrier;
           InstSyncBarrier] tt (selfbar_final rp sch (with_pc base (setX rp p s))).
Proof.
  intros Hv Hb H0 Hhi Hfuel Hl Hq.
  pose proof (valid_selfbar rp Hv) as Hr.
  destruct (decode_one_reg rp Hr) as (Ddc & Dic & _ & _).
  destruct decode_fixed as (Ddsb & Disb & _).
  unfold selfbar, run_asm, text_of in *. rewrite (selfbar_code rp Hv) in *.
  cbn [List.length map] in *. change (4 * Z.of_nat 5) with 20.
  set (ws := [encode (DC_CVAU rp); encode DSB_SY; encode (IC_IVAU rp); encode DSB_SY;
              encode ISB]) in *.
  assert (Hq' : forall n, forallb (no_store_in base (base + 4 * Z.of_nat (List.length ws)))
                                  (sch n) = true) by exact Hq.
  set (s0 := with_pc base (setX rp p s)).
  assert (L0 : loaded s0 base ws).
  { unfold s0, setX. destruct (Nat.eqb rp 31);
      (eapply loaded_same; [| | | | exact Hl]; reflexivity). }
  assert (P0 : pc s0 = base + 4 * Z.of_nat 0) by (simpl; lia).
  destruct fuel as [|[|[|[|[|f]]]]]; try lia.
  destruct (straight_step base ws 0 (DC_CVAU rp) (4 + f) (base + 20) sch 0 s0)
    as (R1 & L1 & P1); try assumption; try reflexivity; try (simpl; lia); try apply Hq'.
  destruct (straight_step base ws 1 DSB_SY (3 + f) (base + 20) sch 1 _ L1)
    as (R2 & L2 & P2); try assumption; try reflexivity; try (rewrite ?P1; simpl; lia);
    try apply Hq'.
  destruct (straight_step base ws 2 (IC_IVAU rp) (2 + f) (base + 20) sch 2 _ L2)
    as (R3 & L3 & P3); try assumption; try reflexivity; try (rewrite ?P2; simpl; lia);
    try apply Hq'.
  destruct (straight_step base ws 3 DSB_SY (1 + f) (base + 20) sch 3 _ L3)
    as (R4 & L4 & P4); try assumption; try reflexivity; try (rewrite ?P3; simpl; lia);
    try apply Hq'.
  destruct (straight_step base ws 4 ISB f (base + 20) sch 4 _ L4)
    as (R5 & L5 & P5); try assumption; try reflexivity; try (rewrite ?P4; simpl; lia);
    try apply Hq'.
  simpl plus in *. rewrite R1, R2, R3, R4, R5.
  rewrite run_done by (rewrite P5; simpl; lia).
  unfold selfbar_final. fold s0. f_equal.
  cbn [fst exec]. rewrite !getX_apply_all.
  unfold getX at 2. rewrite !after_xreg by reflexivity. fold (getX s0 rp).
  unfold s0. rewrite getX_entry by exact Hr. reflexivity.
Qed.

Lemma xreg_after_write (r : nat) (v : Z) (s : machine) :
  (r < 31)%nat -> xreg (next (setX r v s)) r = v.
Proof.
  intros H. unfold setX. destruct (Nat.eqb r 31) eqn:E; [apply Nat.eqb_eq in E; lia|].
  simpl. rewrite Nat.eqb_refl. reflexivity.
Qed.

Lemma getXsp_general (s : machine) (r : nat) : (r < 31)%nat -> getXsp s r = xreg s r.
Proof.
  intros H. unfold getXsp. destruct (Nat.eqb r 31) eqn:E; [apply Nat.eqb_eq in E; lia|].
  reflexivity.
Qed.

Lemma getX_general (s : machine) (r : nat) : (r < 31)%nat -> getX s r = xreg s r.
Proof.
  intros H. unfold getX. destruct (Nat.eqb r 31) eqn:E; [apply Nat.eqb_eq in E; lia|].
  reflexivity.
Qed.

Lemma getret_runs (base : Z) (rx1 rx2 : nat) (fuel : nat) sch (s : machine) :
  valid_allocation getret_asm [("x1", rx1); ("x2", rx2)] = true ->
  base mod 4 = 0 -> 0 <= base -> base + 16 < 2 ^ 64 -> (3 <= fuel)%nat ->
  loaded s base (text_of getret_asm [("x1", rx1); ("x2", rx2)]) ->
  (forall n, forallb (no_store_in base (base + 16)) (sch n) = true) ->
  getret base rx1 rx2 fuel sch s =
  Returns [AddrOf rx1 (base + 12); Load32 rx2 (base + 12) 0xD65F03C0; Branch (base + 16)]
          0xD65F03C0 (getret_final rx1 rx2 sch (with_pc base s)).
Proof.
  intros Hv Hb H0 Hhi Hfuel Hl Hq.
  destruct (valid_getret rx1 rx2 Hv) as (Hr1 & Hr2 & Hne).
  destruct (decode_one_reg rx1 Hr1) as (_ & _ & Dadr & _).
  pose proof (decode_ldr rx2 rx1 Hr2 Hr1) as Dldr.
  destruct decode_fixed as (_ & _ & Db).
  unfold getret, run_asm, text_of in *. rewrite (getret_code rx1 rx2 Hv) in *.
  cbn [List.length map] in *. change (4 * Z.of_nat 4) with 16.
  set (ws := [encode (ADR rx1 12); encode (LDR_W rx2 rx1 0); encode (B 8);
              encode (RET 30)]) in *.
  assert (Hq' : forall n, forallb (no_store_in base (base + 4 * Z.of_nat (List.length ws)))
                                  (sch n) = true) by exact Hq.
  set (s0 := with_pc base s).
  assert (L0 : loaded s0 base ws)
    by (eapply loaded_same; [| | | | exact Hl]; reflexivity).
  destruct fuel as [|[|[|f]]]; try lia.
  destruct (straight_step base ws 0 (ADR rx1 12) (2 + f) (base + 16) sch 0 s0)
    as (R1 & L1 & P1); try assumption; try reflexivity; try (simpl; lia); try apply Hq'.
  destruct (straight_step base ws 1 (LDR_W rx2 rx1 0) (1 + f) (base + 16) sch 1 _ L1)
    as (R2 & L2 & P2); try assumption; try reflexivity; try (rewrite ?P1; simpl; lia);
    try apply Hq'.
  set (s1 := after (ADR rx1 12) (sch 0%nat) s0) in *.
  set (s2 := after (LDR_W rx2 rx1 0) (sch 1%nat) s1) in *.
  assert (R3 : run (S f) (base + 16) sch 2 s2 =
               match run f (base + 16) sch 3 (after (B 8) (sch 2%nat) s2) with
               | Done tr s' => Done (fst (exec (B 8) (apply_all (sch 2%nat) s2)) :: tr) s'
               | other => other
               end).
  { apply run_step; [rewrite P2; simpl; lia|].
    eapply (fetches_loaded s2 base ws 2); try eassumption; try reflexivity. apply Hq'. }
  assert (E0 : pc (apply_all (sch 0%nat) s0) = base)
    by (destruct (apply_all_frame (sch 0%nat) s0) as (E & _); rewrite E; reflexivity).
  assert (E1 : pc (apply_all (sch 1%nat) s1) = base + 4)
    by (destruct (apply_all_frame (sch 1%nat) s1) as (E & _); rewrite E, P1; simpl; lia).
  assert (E2 : pc (apply_all (sch 2%nat) s2) = base + 8)
    by (destruct (apply_all_frame (sch 2%nat) s2) as (E & _); rewrite E, P2; simpl; lia).
  assert (X1 : xreg s1 rx1 = base + 12).
  { unfold s1, after. cbn [snd exec]. rewrite xreg_after_write by exact Hr1.
    rewrite E0. apply wrap64_small. lia. }
  assert (A1 : wrap64 (getXsp (apply_all (sch 1%nat) s1) rx1 + 0) = base + 12).
  { rewrite getXsp_general by exact Hr1.
    destruct (apply_all_frame (sch 1%nat) s1) as (_ & _ & E & _). rewrite E, X1.
    rewrite Z.add_0_r. apply wrap64_small. lia. }
  assert (V1 : load32 (apply_all (sch 1%nat) s1) (base + 12) = 0xD65F03C0).
  { rewrite (holds_load _ _ (encode (RET 30))); [reflexivity|].
    replace (base + 12) with (base + 4 * Z.of_nat 3) by (simpl; lia).
    apply (loaded_nth _ base ws 3); [|reflexivity].
    apply loaded_apply_all; [apply Hq' | exact L1]. }
  assert (X2 : getX (after (B 8) (sch 2%nat) s2) rx2 = 0xD65F03C0).
  { rewrite getX_general by exact Hr2. unfold after at 1. cbn [snd exec]. cbn [xreg with_pc].
    destruct (apply_all_frame (sch 2%nat) s2) as (_ & _ & E & _). rewrite E.
    unfold s2, after. cbn [snd exec]. rewrite xreg_after_write by exact Hr2.
    rewrite A1. exact V1. }
  assert (P3 : pc (after (B 8) (sch 2%nat) s2) = base + 16).
  { unfold after at 1. cbn [snd exec pc with_pc]. rewrite E2.
    replace (base + 8 + 8) with (base + 16) by lia. apply wrap64_small. lia. }
  simpl plus in *. rewrite R1, R2, R3.
  rewrite run_done by exact P3.
  unfold getret_final. fold s0 s1 s2. rewrite X2.
  cbn [fst exec]. rewrite E0, E2, A1, V1.
  replace (base + 8 + 8) with (base + 16) by lia.
  rewrite !wrap64_small by lia. reflexivity.
Qed.

End Runs.

(** ** Effects of whole runs *)

Section Effects.

Lemma holds_play (evs : list event) (s : machine) (a w : Z) :
  forallb (spares_word a) evs = true -> holds s a w -> holds (play evs s) a w.
Proof.
  revert s. induction evs as [|e evs IH]; intros s Hq H; simpl in *; [exact H|].
  apply andb_true_iff in Hq. destruct Hq as [He Hq]. apply IH; [exact Hq|].
  destruct e as [h|i]; simpl; [apply holds_hw; assumption | apply holds_exec, H].
Qed.

Lemma spares_of_no_store_in (lo hi x : Z) (hs : list hw_action) :
  forallb (no_store_in lo hi) hs = true -> lo <= x < hi -> Forall (spares x) hs.
Proof.
  intros H Hx. apply Forall_forall. intros h Hin.
  rewrite forallb_forall in H. eapply no_store_in_spares; [apply H, Hin | exact Hx].
Qed.

Lemma spares_of_no_store (x : Z) (hs : list hw_action) :
  forallb no_store hs = true -> Forall (spares x) hs.
Proof.
  intros H. apply Forall_forall. intros h Hin.
  rewrite forallb_forall in H. specialize (H h Hin). destruct h; simpl; auto. discriminate.
Qed.

Lemma no_store_in_of_no_store (lo hi : Z) (hs : list hw_action) :
  forallb no_store hs = true -> forallb (no_store_in lo hi) hs = true.
Proof.
  intros H. rewrite forallb_forall in *. intros h Hin. specialize (H h Hin).
  destruct h; simpl in *; auto. discriminate.
Qed.

(** No instruction of the subset writes memory. *)
Lemma data_byte_exec (i : instr) (s : machine) (x : Z) :
  data_byte (snd (exec i s)) x = data_byte s x.
Proof.
  destruct i; simpl; try reflexivity.
  - exact (data_byte_complete_all (pending s) s x).
  - unfold setX. destruct (Nat.eqb rd 31); reflexivity.
  - unfold setX. destruct (Nat.eqb rt 31); reflexivity.
Qed.

Lemma data_byte_after (i : instr) (hs : list hw_action) (s : machine) (x : Z) :
  data_byte (after i hs s) x = data_byte (apply_all hs s) x.
Proof. apply data_byte_exec. Qed.

(** What the data side sees after an action depends only on what it saw
    before. *)
Lemma data_byte_hw_cong (h : hw_action) (s t : machine) (x : Z) :
  data_byte s x = data_byte t x -> data_byte (apply_hw h s) x = data_byte (apply_hw h t) x.
Proof.
  intros H. destruct h as [va|va|va|a|n|a c];
    try (rewrite !data_byte_hw by exact I; exact H).
  unfold data_byte. simpl. destruct (x =? a); [reflexivity | exact H].
Qed.

Lemma data_byte_apply_all_cong (hs : list hw_action) (s t : machine) (x : Z) :
  data_byte s x = data_byte t x ->
  data_byte (apply_all hs s) x = data_byte (apply_all hs t) x.
Proof.
  revert s t. induction hs as [|h hs IH]; intros s t H; simpl; [exact H|].
  apply IH, data_byte_hw_cong, H.
Qed.

Lemma store32_byte (a w i : Z) (s : machine) :
  0 <= i < 4 -> data_byte (store32 a w s) (a + i) = byte_of w i.
Proof.
  intros Hi. unfold data_byte, store32. simpl.
  replace ((a <=? a + i) && (a + i <? a + 4)) with true.
  - f_equal. lia.
  - symmetry. apply andb_true_iff. split; [apply Z.leb_le | apply Z.ltb_lt]; lia.
Qed.

Lemma store32_written (a w : Z) (s : machine) : written (store32 a w s) a w.
Proof.
  pose proof (store32_byte a w 0 s) as H0. rewrite Z.add_0_r in H0.
  repeat split; [apply H0 | apply store32_byte ..]; lia.
Qed.

Lemma holds_store32 (b v : Z) (s : machine) (a w : Z) :
  a + 4 <= b \/ b + 4 <= a -> holds s a w -> holds (store32 b v s) a w.
Proof.
  intros Hd (H0 & H1 & H2 & H3 & Hp).
  assert (K : forall x c, a <= x < a + 4 -> synced_byte s x c ->
                          synced_byte (store32 b v s) x c).
  { intros x c Hx [[Hm Hdc] Hi]. split; [split|]; simpl; [exact Hm| |exact Hi].
    destruct ((b <=? x) && (x <? b + 4)) eqn:E; [|exact Hdc].
    apply andb_true_iff in E. destruct E as [E1 E2].
    apply Z.leb_le in E1. apply Z.ltb_lt in E2. lia. }
  refine (conj (K _ _ _ H0) (conj (K _ _ _ H1) (conj (K _ _ _ H2) (conj (K _ _ _ H3) Hp))));
    lia.
Qed.

Lemma loaded_store32 (b v : Z) (s : machine) (a : Z) (ws : list Z) :
  a + 4 * Z.of_nat (List.length ws) <= b \/ b + 4 <= a ->
  loaded s a ws -> loaded (store32 b v s) a ws.
Proof.
  revert a. induction ws as [|w ws IH]; intros a Hd H; [exact I|].
  destruct H as [Hw Hrest]. cbn [List.length] in Hd. split.
  - apply holds_store32; [lia | exact Hw].
  - apply IH; [lia | exact Hrest].
Qed.

(** After the barrier, a word that was written in the line of its
    argument is coherent. *)
Lemma selfbar_final_holds (rp : nat) sch (s : machine) (q v : Z) :
  written s q v -> q mod 4 = 0 ->
  dline s q = dline s (getX s rp) -> iline s q = iline s (getX s rp) ->
  (forall n, forallb (no_store_in q (q + 4)) (sch n) = true) ->
  holds (selfbar_final rp sch s) q v.
Proof.
  intros (W0 & W1 & W2 & W3) Hq Hd Hi Hs.
  assert (K : forall i b, 0 <= i < 4 -> data_byte s (q + i) = b ->
                          synced_byte (selfbar_final rp sch s) (q + i) b).
  { intros i b Hi' Hb. apply selfbar_final_syncs; try assumption.
    - unfold dline in *. rewrite word_in_line by assumption. exact Hd.
    - unfold iline in *. rewrite word_in_line by assumption. exact Hi.
    - intros n. eapply spares_of_no_store_in; [apply Hs | lia]. }
  pose proof (K 0) as K0. rewrite Z.add_0_r in K0.
  refine (conj (K0 _ _ W0) (conj (K 1 _ _ W1) (conj (K 2 _ _ W2) (conj (K 3 _ _ W3) _))));
    try lia.
  left. apply (selfbar_final_syncs rp sch s q (byte_of v 0)); try assumption.
  intros n. eapply spares_of_no_store_in; [apply Hs | lia].
Qed.

Lemma data_byte_idle (sch : nat -> list hw_action) (n : nat) (s : machine) (x : Z) :
  (forall k, Forall (spares x) (sch k)) -> data_byte (idle sch n s) x = data_byte s x.
Proof.
  intros Hq. induction n as [|n IH]; simpl; [reflexivity|].
  rewrite data_byte_apply_all by apply Hq. exact IH.
Qed.

(** An instruction after the actions [sch n] changes nothing in what the
    data side sees beyond what the actions do. *)
Lemma data_byte_after_idle (i : instr) sch (n : nat) (s t : machine) (x : Z) :
  data_byte t x = data_byte (idle sch n s) x ->
  data_byte (after i (sch n) t) x = data_byte (idle sch (S n) s) x.
Proof.
  intros H. rewrite data_byte_after. simpl. apply data_byte_apply_all_cong, H.
Qed.

Lemma selfbar_final_data (rp : nat) sch (s : machine) (x : Z) :
  data_byte (selfbar_final rp sch s) x = data_byte (idle sch 5 s) x.
Proof.
  unfold selfbar_final. repeat apply data_byte_after_idle. reflexivity.
Qed.

Lemma selfbar_final_regs (rp : nat) sch (s : machine) :
  xreg (selfbar_final rp sch s) = xreg s /\ sp (selfbar_final rp sch s) = sp s.
Proof.
  unfold selfbar_final. split.
  - rewrite !after_xreg by reflexivity. reflexivity.
  - repeat match goal with
           | |- context [sp (after ?i ?hs ?t)] =>
               let E := fresh in
               destruct (after_frame i hs t) as (_ & _ & E); rewrite E; clear E
           end.
    reflexivity.
Qed.

Lemma getret_final_data (rx1 rx2 : nat) sch (s : machine) (x : Z) :
  data_byte (getret_final rx1 rx2 sch s) x = data_byte (idle sch 3 s) x.
Proof.
  unfold getret_final. repeat apply data_byte_after_idle. reflexivity.
Qed.

Lemma xreg_after_other (r k : nat) (v : Z) (s : machine) :
  k <> r -> xreg (next (setX r v s)) k = xreg s k.
Proof.
  intros H. unfold setX. destruct (Nat.eqb r 31); [reflexivity|].
  simpl. destruct (Nat.eqb k r) eqn:E; [apply Nat.eqb_eq in E; contradiction | reflexivity].
Qed.

(** An instruction changes at most the register it names as destination. *)
Lemma xreg_after (i : instr) (hs : list hw_action) (s : machine) (k : nat) :
  written_reg i <> Some k -> xreg (after i hs s) k = xreg s k.
Proof.
  intros H. unfold after.
  destruct (apply_all_frame hs s) as (_ & _ & E & _).
  destruct i; cbn [snd exec]; simpl in H;
    try (rewrite xreg_after_other by congruence); cbn [xreg next with_pc with_pending with_pipe];
    try (rewrite E; reflexivity).
  destruct (complete_all_frame (pending (apply_all hs s)) (apply_all hs s)) as (_ & _ & G & _).
  rewrite G, E. reflexivity.
Qed.

(** The probe writes its two output registers and nothing else. *)
Lemma getret_final_regs (rx1 rx2 : nat) sch (s : machine) :
  (forall k, k <> rx1 -> k <> rx2 -> xreg (getret_final rx1 rx2 sch s) k = xreg s k) /\
  sp (getret_final rx1 rx2 sch s) = sp s.
Proof.
  unfold getret_final. split.
  - intros k H1 H2. rewrite !xreg_after; [reflexivity | | |]; simpl; congruence.
  - repeat match goal with
           | |- context [sp (after ?i ?hs ?t)] =>
               let E := fresh in
               destruct (after_frame i hs t) as (_ & _ & E); rewrite E; clear E
           end.
    reflexivity.
Qed.

Lemma getret_final_pc (rx1 rx2 : nat) sch (s : machine) (base : Z) :
  pc s = base -> 0 <= base -> base + 16 < 2 ^ 64 ->
  pc (getret_final rx1 rx2 sch s) = base + 16.
Proof.
  intros Hpc H0 Hhi. unfold getret_final.
  unfold after at 1. cbn [snd exec pc with_pc].
  destruct (apply_all_frame (sch 2%nat)
              (after (LDR_W rx2 rx1 0) (sch 1%nat) (after (ADR rx1 12) (sch 0%nat) s)))
    as (E & _).
  rewrite E, !after_pc, Hpc by reflexivity.
  rewrite (wrap64_small (base + 4)) by lia.
  rewrite (wrap64_small (base + 4 + 4)) by lia.
  rewrite wrap64_small by lia. lia.
Qed.

Lemma step_fetches (s : machine) (i : instr) : fetches s i -> step s = Some (exec i s).
Proof.
  unfold fetches, step. destruct (ifetch s (pc s)) as [w|]; [|contradiction].
  intros ->. reflexivity.
Qed.

End Effects.

(** ** The claims *)

Ltac show_loaded := vm_compute; repeat split; auto.

(** C1: for every address [p], the barrier performs exactly the five
    operations clean data cache to the point of unification at [p], data
    synchronization barrier, invalidate instruction cache at [p], data
    synchronization barrier, instruction synchronization barrier, in this
    order and nothing else: this is what the assembler reads in the
    template, these are the operations the run performs, and the state
    the call returns is the state these five instructions leave, one
    after the other, with the hardware's actions in between. *)
Theorem selfbar_five_operations (base : Z) (rp fuel : nat) sch (p : Z) (s : machine) :
  valid_allocation selfbar_asm [("p", rp)] = true ->
  base mod 4 = 0 -> 0 <= base -> base + 20 < 2 ^ 64 -> (5 <= fuel)%nat ->
  loaded s base (text_of selfbar_asm [("p", rp)]) ->
  (forall n, forallb (no_store_in base (base + 20)) (sch n) = true) ->
  assemble selfbar_asm [("p", rp)] = Some [DC_CVAU rp; DSB_SY; IC_IVAU rp; DSB_SY; ISB] /\
  selfbar base rp fuel sch p s =
    Returns [CleanDataToPoU p; DataSyncBarrier; InvalInstToPoU p; DataSyncBarrier;
             InstSyncBarrier] tt
            (after ISB (sch 4%nat)
               (after DSB_SY (sch 3%nat)
                  (after (IC_IVAU rp) (sch 2%nat)
                     (after DSB_SY (sch 1%nat)
                        (after (DC_CVAU rp) (sch 0%nat)
                           (with_pc base (setX rp p s))))))) /\
  pc (selfbar_final rp sch (with_pc base (setX rp p s))) = base + 20.
Proof.
  intros Hv Hb H0 Hhi Hf Hl Hq. split; [apply selfbar_code, Hv|]. split.
  - exact (selfbar_runs base rp fuel sch p s Hv Hb H0 Hhi Hf Hl Hq).
  - unfold selfbar_final. rewrite !after_pc by reflexivity. cbn [pc with_pc].
    rewrite (wrap64_small (base + 4)) by lia.
    rewrite (wrap64_small (base + 4 + 4)) by lia.
    rewrite (wrap64_small (base + 4 + 4 + 4)) by lia.
    rewrite (wrap64_small (base + 4 + 4 + 4 + 4)) by lia.
    rewrite wrap64_small by lia. lia.
Qed.

Lemma selfbar_five_operations_witness :
  assemble selfbar_asm [("p", 3%nat)] = Some [DC_CVAU 3; DSB_SY; IC_IVAU 3; DSB_SY; ISB] /\
  selfbar 4096 3 5 Demo.busy 12288 Demo.machine0 =
    Returns [CleanDataToPoU 12288; DataSyncBarrier; InvalInstToPoU 12288; DataSyncBarrier;
             InstSyncBarrier] tt
            (after ISB (Demo.busy 4)
               (after DSB_SY (Demo.busy 3)
                  (after (IC_IVAU 3) (Demo.busy 2)
                     (after DSB_SY (Demo.busy 1)
                        (after (DC_CVAU 3) (Demo.busy 0)
                           (with_pc 4096 (setX 3 12288 Demo.machine0))))))) /\
  pc (selfbar_final 3 Demo.busy (with_pc 4096 (setX 3 12288 Demo.machine0))) = 4096 + 20.
Proof.
  apply (selfbar_five_operations 4096 3 5 Demo.busy 12288 Demo.machine0);
    [reflexivity | reflexivity | lia | reflexivity | lia | show_loaded
    | intros n; reflexivity].
Defined.

(** The other core reads the written word once the line is invalidated
    in its instruction cache and its pipeline is empty. *)
Lemma peer_reads_synced (pe : peer) (s : machine) (p w : Z) :
  p mod 4 = 0 -> holds s p w ->
  peer_read32 (peer_isb (peer_invalidate p pe)) s p = w mod 2 ^ 32.
Proof.
  intros Ha (H0 & H1 & H2 & H3 & _).
  assert (K : forall i b, 0 <= i < 4 -> synced_byte s (p + i) b ->
                          peer_byte (peer_isb (peer_invalidate p pe)) s (p + i) = b).
  { intros i b Hi [[Hm _] _]. unfold peer_byte. simpl.
    rewrite word_in_line by assumption. rewrite Z.eqb_refl. exact Hm. }
  pose proof (K 0) as K0. rewrite Z.add_0_r in K0.
  unfold peer_read32.
  rewrite (K0 _ (ltac:(lia)) H0), (K 1 _ (ltac:(lia)) H1), (K 2 _ (ltac:(lia)) H2),
    (K 3 _ (ltac:(lia)) H3).
  apply le32_byte_of.
Qed.




(** C10, as amended: one call of the barrier on [p] covers what the
    data-cache line and the instruction-cache line of [p] have in common:
    every aligned word [q] that lies in both and that the data side sees
    as [v] is fetched as [v] by the core that ran the barrier from then
    on. *)
Theorem selfbar_covers_line (base : Z) (rp fuel : nat) sch (p q v : Z) (s : machine)
        (evs : list event) :
  valid_allocation selfbar_asm [("p", rp)] = true ->
  base mod 4 = 0 -> 0 <= base -> base + 20 < 2 ^ 64 -> (5 <= fuel)%nat ->
  loaded s base (text_of selfbar_asm [("p", rp)]) ->
  q mod 4 = 0 -> dline s q = dline s p -> iline s q = iline s p ->
  written s q v ->
  (forall n, forallb (no_store_in base (base + 20)) (sch n) = true) ->
  (forall n, forallb (no_store_in q (q + 4)) (sch n) = true) ->
  forallb (spares_word q) evs = true ->
  exists tr s',
    selfbar base rp fuel sch p s = Returns tr tt s' /\
    ifetch (play evs s') q = Some (v mod 2 ^ 32).
Proof.
  intros Hv Hb H0 Hhi Hf Hl Ha Hd Hi Hw Hq Hqq Hevs.
  do 2 eexists. split; [apply selfbar_runs; assumption|].
  unfold ifetch. apply Z.eqb_eq in Ha. rewrite Ha. apply Z.eqb_eq in Ha.
  f_equal. apply holds_fetch, holds_play; [exact Hevs|].
  pose proof (valid_selfbar rp Hv) as Hr.
  assert (Hw' : written (with_pc base (setX rp p s)) q v).
  { unfold setX. destruct (Nat.eqb rp 31); exact Hw. }
  assert (Hl' : forall x, dline (with_pc base (setX rp p s)) x = dline s x /\
                          iline (with_pc base (setX rp p s)) x = iline s x).
  { intros x. unfold setX. destruct (Nat.eqb rp 31); split; reflexivity. }
  apply selfbar_final_holds; try assumption;
    rewrite getX_entry by exact Hr;
    [rewrite !(proj1 (Hl' _)) | rewrite !(proj2 (Hl' _))]; assumption.
Qed.

Lemma selfbar_covers_line_witness :
  exists tr s',
    selfbar 4096 3 5 Demo.busy 12288
            (store32 12348 0xD65F03C0 (store32 12288 0x14000002 Demo.machine0)) =
      Returns tr tt s' /\
    ifetch (play [Hw (Prefetch 12348); Hw (Fill 12288)] s') 12348 = Some 0xD65F03C0.
Proof.
  apply (selfbar_covers_line 4096 3 5 Demo.busy 12288 12348 0xD65F03C0
           (store32 12348 0xD65F03C0 (store32 12288 0x14000002 Demo.machine0))
           [Hw (Prefetch 12348); Hw (Fill 12288)]);
    [reflexivity | reflexivity | lia | reflexivity | lia | show_loaded
    | reflexivity | reflexivity | reflexivity | vm_compute; repeat split
    | intros n; reflexivity | intros n; reflexivity | reflexivity].
Defined.

(** C10, as stated, fails when the two caches have lines of different
    sizes.  With data lines of 64 bytes and instruction lines of 32, the
    word at 0x3020 is in the data-cache line of 0x3000 but in the next
    instruction-cache line: after the barrier on 0x3000 the data side
    sees the written word there and the fetch still yields the old one.
    With the sizes exchanged the word is in the instruction-cache line of
    0x3000 only, it is never cleaned, and the fetch is as stale. *)
Lemma selfbar_misses_line_of_one_cache :
  (dline Demo.machine_skewed 12320 = dline Demo.machine_skewed 12288 /\
   iline Demo.machine_skewed 12320 <> iline Demo.machine_skewed 12288 /\
   written (store32 12320 0xD65F03C0 Demo.machine_skewed) 12320 0xD65F03C0 /\
   exists tr s',
     selfbar 4096 3 5 quiet 12288 (store32 12320 0xD65F03C0 Demo.machine_skewed) =
       Returns tr tt s' /\
     load32 s' 12320 = 0xD65F03C0 /\
     ifetch s' 12320 = Some 0 /\
     ifetch s' 12320 <> Some 0xD65F03C0) /\
  (iline Demo.machine_skewed_back 12320 = iline Demo.machine_skewed_back 12288 /\
   dline Demo.machine_skewed_back 12320 <> dline Demo.machine_skewed_back 12288 /\
   written (store32 12320 0xD65F03C0 Demo.machine_skewed_back) 12320 0xD65F03C0 /\
   exists tr s',
     selfbar 4096 3 5 quiet 12288 (store32 12320 0xD65F03C0 Demo.machine_skewed_back) =
       Returns tr tt s' /\
     load32 s' 12320 = 0xD65F03C0 /\
     ifetch s' 12320 = Some 0 /\
     ifetch s' 12320 <> Some 0xD65F03C0).
Proof.
  split.
  - split; [reflexivity|]. split; [vm_compute; discriminate|].
    split; [vm_compute; repeat split|].
    do 2 eexists. split.
    + apply selfbar_runs;
        [reflexivity | reflexivity | lia | reflexivity | lia | show_loaded
        | intros n; reflexivity].
    + split; [vm_compute; reflexivity|]. split; [vm_compute; reflexivity|].
      vm_compute. discriminate.
  - split; [reflexivity|]. split; [vm_compute; discriminate|].
    split; [vm_compute; repeat split|].
    do 2 eexists. split.
    + apply selfbar_runs;
        [reflexivity | reflexivity | lia | reflexivity | lia | show_loaded
        | intros n; reflexivity].
    + split; [vm_compute; reflexivity|]. split; [vm_compute; reflexivity|].
      vm_compute. discriminate.
Qed.

(** What the data side sees after the barrier is what the concurrent
    actions alone would have left; the stack pointer and the registers
    are untouched. *)
Lemma selfbar_frame_concurrent (base : Z) (rp : nat) sch (p : Z) (s : machine) :
  let s' := selfbar_final rp sch (with_pc base (setX rp p s)) in
  (forall a, data_byte s' a = data_byte (idle sch 5 s) a) /\
  sp s' = sp s /\ xreg s' = xreg (setX rp p s).
Proof.
  intros s'. set (s0 := with_pc base (setX rp p s)).
  assert (D0 : forall a n, data_byte (idle sch n s0) a = data_byte (idle sch n s) a).
  { intros a n. induction n as [|n IH]; simpl.
    - unfold s0, setX. destruct (Nat.eqb rp 31); reflexivity.
    - apply data_byte_apply_all_cong, IH. }
  destruct (selfbar_final_regs rp sch s0) as (Rx & Rsp).
  split; [|split].
  - intros a. unfold s'. fold s0. rewrite selfbar_final_data. apply D0.
  - unfold s'. fold s0. rewrite Rsp. unfold s0, setX. destruct (Nat.eqb rp 31); reflexivity.
  - unfold s'. fold s0. rewrite Rx. reflexivity.
Qed.

(** C7: the barrier changes no value a program can load.  When no other
    observer stores during the call, every byte and every word the data
    side sees after [selfbar p] is the one it saw before, for every [p];
    the stack pointer and the registers are untouched as well (the
    operand's register holds [p] on entry).  Only caches, pipeline and
    [pc] move. *)
Theorem selfbar_frame (base : Z) (rp fuel : nat) sch (p : Z) (s : machine) :
  valid_allocation selfbar_asm [("p", rp)] = true ->
  base mod 4 = 0 -> 0 <= base -> base + 20 < 2 ^ 64 -> (5 <= fuel)%nat ->
  loaded s base (text_of selfbar_asm [("p", rp)]) ->
  (forall n, forallb no_store (sch n) = true) ->
  exists tr s',
    selfbar base rp fuel sch p s = Returns tr tt s' /\
    (forall a, data_byte s' a = data_byte s a) /\
    (forall a, load32 s' a = load32 s a) /\
    sp s' = sp s /\
    xreg s' = xreg (setX rp p s).
Proof.
  intros Hv Hb H0 Hhi Hf Hl Hn.
  do 2 eexists. split.
  { apply selfbar_runs; try assumption. intros n. apply no_store_in_of_no_store, Hn. }
  destruct (selfbar_frame_concurrent base rp sch p s) as (D & Rsp & Rx).
  assert (E : forall a, data_byte (selfbar_final rp sch (with_pc base (setX rp p s))) a =
                        data_byte s a).
  { intros a. rewrite D. apply data_byte_idle. intros k. apply spares_of_no_store, Hn. }
  split; [exact E|]. split; [|split; assumption].
  intros a. unfold load32. rewrite !E. reflexivity.
Qed.

Lemma selfbar_frame_witness :
  exists tr s',
    selfbar 4096 3 5 Demo.alone 12288 (store32 12288 0xD65F03C0 Demo.machine0) =
      Returns tr tt s' /\
    (forall a, data_byte s' a = data_byte (store32 12288 0xD65F03C0 Demo.machine0) a) /\
    (forall a, load32 s' a = load32 (store32 12288 0xD65F03C0 Demo.machine0) a) /\
    sp s' = 65536 /\
    xreg s' = xreg (setX 3 12288 (store32 12288 0xD65F03C0 Demo.machine0)).
Proof.
  apply (selfbar_frame 4096 3 5 Demo.alone 12288 (store32 12288 0xD65F03C0 Demo.machine0));
    [reflexivity | reflexivity | lia | reflexivity | lia | show_loaded
    | intros n; reflexivity].
Defined.

(** C8: both functions are total: on every machine where the statement's
    code is in place they return after exactly five, respectively three,
    instructions, for any fuel that allows as many; neither faults nor
    runs on. *)
Theorem both_terminate (sbase : Z) (rp : nat) (gbase : Z) (rx1 rx2 : nat)
        (fuel fuel' : nat) sch sch' (p : Z) (s t : machine) :
  valid_allocation selfbar_asm [("p", rp)] = true ->
  sbase mod 4 = 0 -> 0 <= sbase -> sbase + 20 < 2 ^ 64 -> (5 <= fuel)%nat ->
  loaded s sbase (text_of selfbar_asm [("p", rp)]) ->
  (forall n, forallb (no_store_in sbase (sbase + 20)) (sch n) = true) ->
  valid_allocation getret_asm [("x1", rx1); ("x2", rx2)] = true ->
  gbase mod 4 = 0 -> 0 <= gbase -> gbase + 16 < 2 ^ 64 -> (3 <= fuel')%nat ->
  loaded t gbase (text_of getret_asm [("x1", rx1); ("x2", rx2)]) ->
  (forall n, forallb (no_store_in gbase (gbase + 16)) (sch' n) = true) ->
  (exists tr s', selfbar sbase rp fuel sch p s = Returns tr tt s' /\ List.length tr = 5%nat) /\
  (exists tr r t', getret gbase rx1 rx2 fuel' sch' t = Returns tr r t' /\
                   List.length tr = 3%nat).
Proof.
  intros. split.
  - do 2 eexists. split; [apply selfbar_runs; assumption | reflexivity].
  - do 3 eexists. split; [apply getret_runs; assumption | reflexivity].
Qed.

Lemma both_terminate_witness :
  (exists tr s', selfbar 4096 3 7 Demo.busy 12288 Demo.machine0 = Returns tr tt s' /\
                 List.length tr = 5%nat) /\
  (exists tr r t', getret 8192 8 9 3 Demo.busy Demo.machine0 = Returns tr r t' /\
                   List.length tr = 3%nat).
Proof.
  apply (both_terminate 4096 3 8192 8 9 7 3 Demo.busy Demo.busy 12288
           Demo.machine0 Demo.machine0);
    [reflexivity | reflexivity | lia | reflexivity | lia | show_loaded
    | intros n; reflexivity
    | reflexivity | reflexivity | lia | reflexivity | lia | show_loaded
    | intros n; reflexivity].
Defined.

(** C3: [getret] returns the word 0xD65F03C0, which is what the assembler
    emits for [ret] and what the machine decodes as a return through the
    link register x30. *)
Theorem getret_returns_ret (base : Z) (rx1 rx2 fuel : nat) sch (s : machine) :
  valid_allocation getret_asm [("x1", rx1); ("x2", rx2)] = true ->
  base mod 4 = 0 -> 0 <= base -> base + 16 < 2 ^ 64 -> (3 <= fuel)%nat ->
  loaded s base (text_of getret_asm [("x1", rx1); ("x2", rx2)]) ->
  (forall n, forallb (no_store_in base (base + 16)) (sch n) = true) ->
  (exists tr s', getret base rx1 rx2 fuel sch s = Returns tr 0xD65F03C0 s') /\
  text_of (mk_asm "ret" [] [] []) [] = [0xD65F03C0] /\
  decode 0xD65F03C0 = Some (RET 30).
Proof.
  intros. split; [|split; reflexivity].
  do 2 eexists. apply getret_runs; assumption.
Qed.

Lemma getret_returns_ret_witness :
  (exists tr s', getret 8192 8 9 3 Demo.busy Demo.machine0 = Returns tr 0xD65F03C0 s') /\
  text_of (mk_asm "ret" [] [] []) [] = [0xD65F03C0] /\
  decode 0xD65F03C0 = Some (RET 30).
Proof.
  apply (getret_returns_ret 8192 8 9 3 Demo.busy Demo.machine0);
    [reflexivity | reflexivity | lia | reflexivity | lia | show_loaded
    | intros n; reflexivity].
Defined.

(** C4: the probe is deterministic and stateless.  Two calls, from any two
    machine states and under any concurrent actions that leave its code
    alone, perform the same operations and return the same word; a call
    changes nothing the data side can see, writes only its two output
    registers, and its single load reads its own code. *)
Theorem getret_deterministic (base : Z) (rx1 rx2 fuel1 fuel2 : nat) sch1 sch2
        (s1 s2 : machine) :
  valid_allocation getret_asm [("x1", rx1); ("x2", rx2)] = true ->
  base mod 4 = 0 -> 0 <= base -> base + 16 < 2 ^ 64 ->
  (3 <= fuel1)%nat -> (3 <= fuel2)%nat ->
  loaded s1 base (text_of getret_asm [("x1", rx1); ("x2", rx2)]) ->
  loaded s2 base (text_of getret_asm [("x1", rx1); ("x2", rx2)]) ->
  (forall n, forallb (no_store_in base (base + 16)) (sch1 n) = true) ->
  (forall n, forallb (no_store_in base (base + 16)) (sch2 n) = true) ->
  exists tr r s1' s2',
    getret base rx1 rx2 fuel1 sch1 s1 = Returns tr r s1' /\
    getret base rx1 rx2 fuel2 sch2 s2 = Returns tr r s2' /\
    (forall a, data_byte s1' a = data_byte (idle sch1 3 s1) a) /\
    (forall a, data_byte s2' a = data_byte (idle sch2 3 s2) a) /\
    (forall k, k <> rx1 -> k <> rx2 -> xreg s1' k = xreg s1 k /\ xreg s2' k = xreg s2 k) /\
    sp s1' = sp s1 /\ sp s2' = sp s2 /\
    (forall rt a v, In (Load32 rt a v) tr -> base <= a /\ a + 4 <= base + 16).
Proof.
  intros Hv Hb H0 Hhi Hf1 Hf2 Hl1 Hl2 Hq1 Hq2.
  do 4 eexists.
  split; [apply getret_runs; assumption|].
  split; [apply getret_runs; assumption|].
  destruct (getret_final_regs rx1 rx2 sch1 (with_pc base s1)) as (X1 & P1).
  destruct (getret_final_regs rx1 rx2 sch2 (with_pc base s2)) as (X2 & P2).
  assert (D : forall sch s a n,
             data_byte (idle sch n (with_pc base s)) a = data_byte (idle sch n s) a).
  { intros sch s a n. induction n as [|n IH]; simpl; [reflexivity|].
    apply data_byte_apply_all_cong, IH. }
  repeat split.
  - intros a. rewrite getret_final_data. apply D.
  - intros a. rewrite getret_final_data. apply D.
  - rewrite X1 by assumption. reflexivity.
  - rewrite X2 by assumption. reflexivity.
  - exact P1.
  - exact P2.
  - destruct H as [H|[H|[H|[]]]]; try discriminate. injection H as _ <- _. lia.
  - destruct H as [H|[H|[H|[]]]]; try discriminate. injection H as _ <- _. lia.
Qed.

Lemma getret_deterministic_witness :
  exists tr r s1' s2',
    getret 8192 8 9 3 Demo.busy Demo.machine0 = Returns tr r s1' /\
    getret 8192 8 9 5 Demo.alone (store32 12288 77 (setX 8 5 Demo.machine0)) =
      Returns tr r s2' /\
    (forall a, data_byte s1' a = data_byte (idle Demo.busy 3 Demo.machine0) a) /\
    (forall a, data_byte s2' a =
               data_byte (idle Demo.alone 3 (store32 12288 77 (setX 8 5 Demo.machine0))) a) /\
    (forall k, k <> 8%nat -> k <> 9%nat ->
               xreg s1' k = xreg Demo.machine0 k /\
               xreg s2' k = xreg (store32 12288 77 (setX 8 5 Demo.machine0)) k) /\
    sp s1' = 65536 /\ sp s2' = 65536 /\
    (forall rt a v, In (Load32 rt a v) tr -> 8192 <= a /\ a + 4 <= 8192 + 16).
Proof.
  apply (getret_deterministic 8192 8 9 3 5 Demo.busy Demo.alone Demo.machine0
           (store32 12288 77 (setX 8 5 Demo.machine0)));
    [reflexivity | reflexivity | lia | reflexivity | lia | lia | show_loaded | show_loaded
    | intros n; reflexivity | intros n; reflexivity].
Defined.



(** C5, as amended: the label whose address [adr] takes is placed at the
    return instruction, not after it (both are at offset 12), and the
    load reads the word at that address, with no displacement.  The
    branch then goes to the second label, at offset 16, past the return
    instruction, and the loaded word is the result. *)
Theorem getret_probe_as_coded (base : Z) (rx1 rx2 fuel : nat) sch (s : machine) :
  valid_allocation getret_asm [("x1", rx1); ("x2", rx2)] = true ->
  base mod 4 = 0 -> 0 <= base -> base + 16 < 2 ^ 64 -> (3 <= fuel)%nat ->
  loaded s base (text_of getret_asm [("x1", rx1); ("x2", rx2)]) ->
  (forall n, forallb (no_store_in base (base + 16)) (sch n) = true) ->
  label_offset getret_asm [("x1", rx1); ("x2", rx2)] 0 = Some 12 /\
  ret_offset getret_asm [("x1", rx1); ("x2", rx2)] = Some 12 /\
  label_offset getret_asm [("x1", rx1); ("x2", rx2)] 1 = Some 16 /\
  exists s',
    getret base rx1 rx2 fuel sch s =
    Returns (code_probe_ops rx1 rx2 (base + 12) (base + 16) 0xD65F03C0) 0xD65F03C0 s'.
Proof.
  intros Hv Hb H0 Hhi Hf Hl Hq.
  unfold ret_offset, label_offset, stmts_of. rewrite (getret_statements rx1 rx2 Hv).
  repeat (split; [reflexivity|]).
  eexists. apply getret_runs; assumption.
Qed.

Lemma getret_probe_as_coded_witness :
  label_offset getret_asm [("x1", 8%nat); ("x2", 9%nat)] 0 = Some 12 /\
  ret_offset getret_asm [("x1", 8%nat); ("x2", 9%nat)] = Some 12 /\
  label_offset getret_asm [("x1", 8%nat); ("x2", 9%nat)] 1 = Some 16 /\
  exists s',
    getret 8192 8 9 3 Demo.alone Demo.machine0 =
    Returns (code_probe_ops 8 9 (8192 + 12) (8192 + 16) 0xD65F03C0) 0xD65F03C0 s'.
Proof.
  apply (getret_probe_as_coded 8192 8 9 3 Demo.alone Demo.machine0);
    [reflexivity | reflexivity | lia | reflexivity | lia | show_loaded
    | intros n; reflexivity].
Defined.

(** C5, as stated, fails: on the concrete machine the operations of the
    probe are not those of the spec's wording, whatever the loaded word
    and the second label.  The address taken is that of the return
    instruction itself, 0x200C, not that of the instruction after it. *)
Lemma getret_probe_not_as_specified :
  ~ (exists off second r s',
       ret_offset getret_asm [("x1", 8%nat); ("x2", 9%nat)] = Some off /\
       getret 8192 8 9 3 Demo.alone Demo.machine0 =
       Returns (spec_probe_ops 8 9 (8192 + off) second r) r s').
Proof.
  intros (off & second & r & s' & Hoff & Hrun).
  assert (E : ret_offset getret_asm [("x1", 8%nat); ("x2", 9%nat)] = Some 12)
    by (vm_compute; reflexivity).
  rewrite E in Hoff. injection Hoff as <-.
  rewrite (getret_runs 8192 8 9 3 Demo.alone Demo.machine0) in Hrun;
    [| reflexivity | reflexivity | lia | reflexivity | lia | show_loaded
     | intros n; reflexivity].
  unfold spec_probe_ops in Hrun. injection Hrun as Hadr _. discriminate Hadr.
Qed.

(** C6: the round trip.  The caller takes the word from [getret], stores
    it in a buffer, runs the barrier on the buffer and calls the buffer
    from address [c].  The one instruction executed there is a return:
    control is back at [c + 4], the instruction after the call, with the
    stack pointer, every register (the link register among them) and
    everything the data side sees as they were when the call was made. *)
Theorem return_round_trip (gbase : Z) (rx1 rx2 : nat) (sbase : Z) (rp : nat)
        (fuel1 fuel2 : nat) sch1 sch2 (hs : list hw_action) (buf c : Z) (s : machine) :
  valid_allocation getret_asm [("x1", rx1); ("x2", rx2)] = true ->
  gbase mod 4 = 0 -> 0 <= gbase -> gbase + 16 < 2 ^ 64 -> (3 <= fuel1)%nat ->
  valid_allocation selfbar_asm [("p", rp)] = true ->
  sbase mod 4 = 0 -> 0 <= sbase -> sbase + 20 < 2 ^ 64 -> (5 <= fuel2)%nat ->
  loaded s gbase (text_of getret_asm [("x1", rx1); ("x2", rx2)]) ->
  loaded s sbase (text_of selfbar_asm [("p", rp)]) ->
  buf mod 4 = 0 -> sbase + 20 <= buf \/ buf + 4 <= sbase ->
  (forall n, forallb (no_store_in gbase (gbase + 16)) (sch1 n) = true) ->
  (forall n, forallb (no_store_in sbase (sbase + 20)) (sch1 n) = true) ->
  (forall n, forallb (no_store_in sbase (sbase + 20)) (sch2 n) = true) ->
  (forall n, forallb (no_store_in buf (buf + 4)) (sch2 n) = true) ->
  forallb (no_store_in buf (buf + 4)) hs = true ->
  exists tr1 r s1 tr2 s2 s3,
    getret gbase rx1 rx2 fuel1 sch1 s = Returns tr1 r s1 /\
    selfbar sbase rp fuel2 sch2 buf (store32 buf r s1) = Returns tr2 tt s2 /\
    step (apply_all hs (call c buf s2)) = Some (Return (wrap64 (c + 4)), s3) /\
    pc s3 = wrap64 (c + 4) /\
    sp s3 = sp s2 /\
    xreg s3 = xreg (call c buf s2) /\
    getX s3 30 = wrap64 (c + 4) /\
    forall a, data_byte s3 a = data_byte (apply_all hs (call c buf s2)) a.
Proof.
  intros Hvg Hgb Hg0 Hghi Hf1 Hvs Hsb Hs0 Hshi Hf2 Hlg Hls Hbuf Hdis Hq1g Hq1s Hq2s Hq2b Hhs.
  pose proof (valid_selfbar rp Hvs) as Hr.
  set (s1 := getret_final rx1 rx2 sch1 (with_pc gbase s)).
  set (s1w := store32 buf 0xD65F03C0 s1).
  set (s2 := selfbar_final rp sch2 (with_pc sbase (setX rp buf s1w))).
  assert (Hlen : List.length (text_of selfbar_asm [("p", rp)]) = 5%nat).
  { unfold text_of. rewrite (selfbar_code rp Hvs). reflexivity. }
  assert (Hq1s' : forall n, forallb (no_store_in sbase
            (sbase + 4 * Z.of_nat (List.length (text_of selfbar_asm [("p", rp)])))) (sch1 n)
            = true) by (rewrite Hlen; exact Hq1s).
  assert (L1 : loaded s1 sbase (text_of selfbar_asm [("p", rp)])).
  { unfold s1, getret_final. repeat (apply loaded_after; [apply Hq1s'|]).
    eapply loaded_same; [| | | | exact Hls]; reflexivity. }
  assert (L1w : loaded s1w sbase (text_of selfbar_asm [("p", rp)])).
  { apply loaded_store32; [rewrite Hlen; simpl; lia | exact L1]. }
  assert (H2 : holds s2 buf 0xD65F03C0).
  { apply selfbar_final_holds; try assumption.
    - unfold setX. destruct (Nat.eqb rp 31); exact (store32_written buf _ s1).
    - rewrite getX_entry by exact Hr. reflexivity.
    - rewrite getX_entry by exact Hr. reflexivity. }
  set (s2c := apply_all hs (call c buf s2)).
  destruct (apply_all_frame hs (call c buf s2)) as (Epc & Esp & Ex & _).
  assert (F : fetches s2c (RET 30)).
  { apply holds_fetches; unfold s2c; rewrite ?Epc; try exact Hbuf; [|reflexivity].
    apply holds_apply_all; [exact Hhs|].
    unfold call, setX. simpl. eapply holds_same; [| | | | exact H2]; reflexivity. }
  assert (G : getX s2c 30 = wrap64 (c + 4)).
  { unfold getX, s2c. rewrite Ex. reflexivity. }
  exists [AddrOf rx1 (gbase + 12); Load32 rx2 (gbase + 12) 0xD65F03C0; Branch (gbase + 16)],
    0xD65F03C0, s1,
    [CleanDataToPoU buf; DataSyncBarrier; InvalInstToPoU buf; DataSyncBarrier; InstSyncBarrier],
    s2, (with_pc (getX s2c 30) s2c).
  split; [apply getret_runs; assumption|].
  split; [apply selfbar_runs; assumption|].
  fold s2c. split; [rewrite (step_fetches _ _ F); simpl; rewrite G; reflexivity|].
  split; [exact G|].
  split; [exact Esp|].
  split; [exact Ex|].
  split; [exact G|].
  reflexivity.
Qed.

Lemma return_round_trip_witness :
  exists tr1 r s1 tr2 s2 s3,
    getret 8192 8 9 3 Demo.busy Demo.machine0 = Returns tr1 r s1 /\
    selfbar 4096 3 5 Demo.busy 12288 (store32 12288 r s1) = Returns tr2 tt s2 /\
    step (apply_all (Demo.busy 0) (call 16384 12288 s2)) = Some (Return 16388, s3) /\
    pc s3 = 16388 /\
    sp s3 = sp s2 /\
    xreg s3 = xreg (call 16384 12288 s2) /\
    getX s3 30 = 16388 /\
    forall a, data_byte s3 a = data_byte (apply_all (Demo.busy 0) (call 16384 12288 s2)) a.
Proof.
  apply (return_round_trip 8192 8 9 4096 3 3 5 Demo.busy Demo.busy (Demo.busy 0)
           12288 16384 Demo.machine0);
    [reflexivity | reflexivity | lia | reflexivity | lia
    | reflexivity | reflexivity | lia | reflexivity | lia
    | show_loaded | show_loaded | reflexivity | left; lia
    | intros n; reflexivity | intros n; reflexivity | intros n; reflexivity
    | intros n; reflexivity | reflexivity].
Defined.

(** Without the barrier the stale word is what gets fetched: on the
    concrete machine the buffer still reads as zero on the instruction
    side after the store. *)
Example stale_without_barrier :
  ifetch (store32 12288 0xD65F03C0 Demo.machine0) 12288 = Some 0 /\
  load32 (store32 12288 0xD65F03C0 Demo.machine0) 12288 = 0xD65F03C0.
Proof. split; reflexivity. Qed.


(** Each part of the barrier does work on this machine: leave out the
    final [isb] and the pipeline still holds the old word; leave out the
    second [dsb] and the invalidate may still be in flight; leave out the
    clean and memory still holds the old bytes. *)
Example barrier_parts_needed :
  let s := setX 3 12288 (store32 12288 0xD65F03C0 Demo.machine0) in
  ifetch (after DSB_SY [] (after (IC_IVAU 3) [] (after DSB_SY []
            (after (DC_CVAU 3) [] s)))) 12288 = Some 0 /\
  ifetch (after ISB [] (after (IC_IVAU 3) [] (after DSB_SY []
            (after (DC_CVAU 3) [] s)))) 12288 = Some 0 /\
  ifetch (after ISB [] (after DSB_SY [] (after (IC_IVAU 3) [] s))) 12288 = Some 0 /\
  ifetch (selfbar_final 3 (fun _ => []) s) 12288 = Some 0xD65F03C0.
Proof. repeat split; reflexivity. Qed.

(** ** Further properties of the two functions *)

Section Further.

Lemma holds_selfbar_final (rp : nat) sch (s : machine) (q v : Z) :
  (forall n, forallb (no_store_in q (q + 4)) (sch n) = true) ->
  holds s q v -> holds (selfbar_final rp sch s) q v.
Proof.
  intros Hq H. unfold selfbar_final. repeat (apply holds_after; [apply Hq|]). exact H.
Qed.

Lemma loaded_selfbar_final (rp : nat) sch (s : machine) (a : Z) (ws : list Z) :
  (forall n, forallb (no_store_in a (a + 4 * Z.of_nat (List.length ws))) (sch n) = true) ->
  loaded s a ws -> loaded (selfbar_final rp sch s) a ws.
Proof.
  intros Hq H. unfold selfbar_final. repeat (apply loaded_after; [apply Hq|]). exact H.
Qed.

Lemma holds_entry (base : Z) (rp : nat) (p : Z) (s : machine) (q v : Z) :
  holds s q v -> holds (with_pc base (setX rp p s)) q v.
Proof.
  intros H. unfold setX. destruct (Nat.eqb rp 31);
    (eapply holds_same; [| | | | exact H]; reflexivity).
Qed.

Lemma selfbar_text_length (rp : nat) :
  valid_allocation selfbar_asm [("p", rp)] = true ->
  List.length (text_of selfbar_asm [("p", rp)]) = 5%nat.
Proof. intros Hv. unfold text_of. rewrite (selfbar_code rp Hv). reflexivity. Qed.

Lemma clean_at_exec (i : instr) (s : machine) (x b : Z) :
  clean_at s x b -> clean_at (snd (exec i s)) x b.
Proof.
  intros H. destruct i; simpl; try exact H.
  - exact (clean_at_complete_all (pending s) s x b H).
  - unfold setX. destruct (Nat.eqb rd 31); exact H.
  - unfold setX. destruct (Nat.eqb rt 31); exact H.
Qed.

Lemma clean_at_after (i : instr) (hs : list hw_action) (s : machine) (x b : Z) :
  Forall (spares x) hs -> clean_at s x b -> clean_at (after i hs s) x b.
Proof. intros Hq H. apply clean_at_exec, clean_at_apply_all; assumption. Qed.

Lemma pending_none_hw (h : hw_action) (s : machine) :
  pending s = [] -> pending (apply_hw h s) = [].
Proof.
  intros H. destruct h as [va|va|va|a|n|a c]; simpl; try exact H.
  rewrite H. destruct n; exact H.
Qed.

Lemma pending_none_apply_all (hs : list hw_action) (s : machine) :
  pending s = [] -> pending (apply_all hs s) = [].
Proof.
  revert s. induction hs as [|h hs IH]; intros s H; simpl; [exact H|].
  apply IH, pending_none_hw, H.
Qed.

Lemma memsys_hw_cong (h : hw_action) (s t : machine) :
  memsys s = memsys t -> memsys (apply_hw h s) = memsys (apply_hw h t).
Proof.
  destruct s, t. unfold memsys. simpl. intros H. injection H as -> -> -> -> -> -> ->.
  destruct h as [va|va|va|a|n|a c]; try reflexivity.
  simpl. destruct (nth_error pending1 n) as [m|]; [|reflexivity].
  destruct m; reflexivity.
Qed.

Lemma memsys_apply_all_cong (hs : list hw_action) (s t : machine) :
  memsys s = memsys t -> memsys (apply_all hs s) = memsys (apply_all hs t).
Proof.
  revert s t. induction hs as [|h hs IH]; intros s t H; simpl; [exact H|].
  apply IH, memsys_hw_cong, H.
Qed.

Lemma memsys_exec (i : instr) (s : machine) :
  plain i = true -> memsys (snd (exec i s)) = memsys s.
Proof.
  intros H. destruct i; try discriminate; simpl; try reflexivity.
  - unfold setX. destruct (Nat.eqb rd 31); reflexivity.
  - unfold setX. destruct (Nat.eqb rt 31); reflexivity.
Qed.

Lemma memsys_after_idle (i : instr) sch (n : nat) (s t : machine) :
  plain i = true -> memsys t = memsys (idle sch n s) ->
  memsys (after i (sch n) t) = memsys (idle sch (S n) s).
Proof.
  intros Hp H. unfold after. rewrite memsys_exec by exact Hp.
  simpl. apply memsys_apply_all_cong, H.
Qed.

End Further.



(** X2: barriers compose over a buffer of several words.  Write a word
    at [q1] and run the barrier on it, then write a word at another
    place [q2] (in any line) and run the barrier on that: afterwards both
    words are fetched as written. *)
Theorem selfbar_twice (base : Z) (rp fuel : nat) sch1 sch2 (q1 w1 q2 w2 : Z) (s : machine)
        (evs : list event) :
  valid_allocation selfbar_asm [("p", rp)] = true ->
  base mod 4 = 0 -> 0 <= base -> base + 20 < 2 ^ 64 -> (5 <= fuel)%nat ->
  loaded s base (text_of selfbar_asm [("p", rp)]) ->
  q1 mod 4 = 0 -> q2 mod 4 = 0 ->
  written s q1 w1 ->
  q1 + 4 <= q2 \/ q2 + 4 <= q1 ->
  base + 20 <= q2 \/ q2 + 4 <= base ->
  (forall n, forallb (no_store_in base (base + 20)) (sch1 n) = true) ->
  (forall n, forallb (no_store_in base (base + 20)) (sch2 n) = true) ->
  (forall n, forallb (no_store_in q1 (q1 + 4)) (sch1 n) = true) ->
  (forall n, forallb (no_store_in q1 (q1 + 4)) (sch2 n) = true) ->
  (forall n, forallb (no_store_in q2 (q2 + 4)) (sch2 n) = true) ->
  forallb (spares_word q1) evs = true -> forallb (spares_word q2) evs = true ->
  exists tr1 s1 tr2 s2,
    selfbar base rp fuel sch1 q1 s = Returns tr1 tt s1 /\
    selfbar base rp fuel sch2 q2 (store32 q2 w2 s1) = Returns tr2 tt s2 /\
    ifetch (play evs s2) q1 = Some (w1 mod 2 ^ 32) /\
    ifetch (play evs s2) q2 = Some (w2 mod 2 ^ 32).
Proof.
  intros Hv Hb H0 Hhi Hf Hl Ha1 Ha2 Hw Hd12 Hdc Hc1 Hc2 Hq11 Hq12 Hq22 He1 He2.
  pose proof (valid_selfbar rp Hv) as Hr.
  pose proof (selfbar_text_length rp Hv) as Hlen.
  set (s1 := selfbar_final rp sch1 (with_pc base (setX rp q1 s))).
  set (s1w := store32 q2 w2 s1).
  set (s2 := selfbar_final rp sch2 (with_pc base (setX rp q2 s1w))).
  assert (L1 : loaded s1 base (text_of selfbar_asm [("p", rp)])).
  { apply loaded_selfbar_final; [rewrite Hlen; exact Hc1|].
    unfold setX. destruct (Nat.eqb rp 31);
      (eapply loaded_same; [| | | | exact Hl]; reflexivity). }
  assert (K1 : holds s1 q1 w1).
  { apply selfbar_final_holds; try assumption.
    - unfold setX. destruct (Nat.eqb rp 31); exact Hw.
    - rewrite getX_entry by exact Hr. reflexivity.
    - rewrite getX_entry by exact Hr. reflexivity. }
  assert (L1w : loaded s1w base (text_of selfbar_asm [("p", rp)])).
  { apply loaded_store32; [rewrite Hlen; simpl; lia | exact L1]. }
  assert (K1w : holds s1w q1 w1) by (apply holds_store32; [lia | exact K1]).
  assert (K2 : holds s2 q2 w2).
  { apply selfbar_final_holds; try assumption.
    - unfold setX. destruct (Nat.eqb rp 31); exact (store32_written q2 w2 s1).
    - rewrite getX_entry by exact Hr. reflexivity.
    - rewrite getX_entry by exact Hr. reflexivity. }
  assert (K12 : holds s2 q1 w1).
  { apply holds_selfbar_final; [exact Hq12|]. apply holds_entry, K1w. }
  exists [CleanDataToPoU q1; DataSyncBarrier; InvalInstToPoU q1; DataSyncBarrier;
          InstSyncBarrier], s1,
         [CleanDataToPoU q2; DataSyncBarrier; InvalInstToPoU q2; DataSyncBarrier;
          InstSyncBarrier], s2.
  split; [apply selfbar_runs; assumption|].
  split; [apply selfbar_runs; assumption|].
  unfold ifetch. apply Z.eqb_eq in Ha1, Ha2. rewrite Ha1, Ha2.
  split; f_equal; apply holds_fetch, holds_play; assumption.
Qed.

Lemma selfbar_twice_witness :
  exists tr1 s1 tr2 s2,
    selfbar 4096 3 5 Demo.busy 12288 (store32 12288 0x14000001 Demo.machine0) =
      Returns tr1 tt s1 /\
    selfbar 4096 3 5 Demo.alone 12352 (store32 12352 0xD65F03C0 s1) = Returns tr2 tt s2 /\
    ifetch (play [Hw (Fill 12288); Hw (Prefetch 12352)] s2) 12288 = Some 0x14000001 /\
    ifetch (play [Hw (Fill 12288); Hw (Prefetch 12352)] s2) 12352 = Some 0xD65F03C0.
Proof.
  apply (selfbar_twice 4096 3 5 Demo.busy Demo.alone 12288 0x14000001 12352 0xD65F03C0
           (store32 12288 0x14000001 Demo.machine0)
           [Hw (Fill 12288); Hw (Prefetch 12352)]);
    [reflexivity | reflexivity | lia | reflexivity | lia | show_loaded
    | reflexivity | reflexivity | vm_compute; repeat split | left; lia | left; lia
    | intros n; reflexivity | intros n; reflexivity | intros n; reflexivity
    | intros n; reflexivity | intros n; reflexivity | reflexivity | reflexivity].
Defined.

(** X4: when [selfbar] returns nothing is left in flight: every
    maintenance operation, its own and any issued before the call, is
    complete, and the pipeline holds no prefetched word. *)
Theorem selfbar_drains (base : Z) (rp fuel : nat) sch (p : Z) (s : machine) :
  valid_allocation selfbar_asm [("p", rp)] = true ->
  base mod 4 = 0 -> 0 <= base -> base + 20 < 2 ^ 64 -> (5 <= fuel)%nat ->
  loaded s base (text_of selfbar_asm [("p", rp)]) ->
  (forall n, forallb (no_store_in base (base + 20)) (sch n) = true) ->
  exists tr s',
    selfbar base rp fuel sch p s = Returns tr tt s' /\
    pending s' = [] /\ forall a, pipe s' a = None.
Proof.
  intros Hv Hb H0 Hhi Hf Hl Hq.
  do 2 eexists. split; [apply selfbar_runs; assumption|].
  split; [|reflexivity].
  unfold selfbar_final. unfold after at 1. cbn [snd exec pending next with_pc with_pipe].
  apply pending_none_apply_all. reflexivity.
Qed.

Lemma selfbar_drains_witness :
  exists tr s',
    selfbar 4096 3 5 Demo.busy 12288
            (with_pending [InvalI 8192; CleanD 20000] Demo.machine0) = Returns tr tt s' /\
    pending s' = [] /\ forall a, pipe s' a = None.
Proof.
  apply (selfbar_drains 4096 3 5 Demo.busy 12288
           (with_pending [InvalI 8192; CleanD 20000] Demo.machine0));
    [reflexivity | reflexivity | lia | reflexivity | lia | show_loaded
    | intros n; reflexivity].
Defined.

Section FurtherRuns.

Lemma selfbar_final_cleans (rp : nat) sch (s : machine) (x b : Z) :
  data_byte s x = b -> dline s x = dline s (getX s rp) ->
  (forall n, Forall (spares x) (sch n)) ->
  clean_at (selfbar_final rp sch s) x b.
Proof.
  intros Hd Hdl Hq. unfold selfbar_final.
  do 3 (apply clean_at_after; [apply Hq|]).
  apply dsb_cleans, cleaning_apply_all; [apply Hq|].
  apply dc_cvau_starts.
  - rewrite data_byte_apply_all by apply Hq. exact Hd.
  - rewrite getX_apply_all.
    destruct (apply_all_frame (sch 0%nat) s) as (_ & _ & _ & E & _).
    unfold dline in *. rewrite E. exact Hdl.
Qed.

(** With idle hardware and nothing in flight before, the barrier is one
    clean of the data line and one invalidate of the instruction line of
    its argument. *)
Lemma selfbar_final_quiet (rp : nat) (s : machine) :
  pending s = [] ->
  mem (selfbar_final rp quiet s) = mem (clean_line (getX s rp) s) /\
  dcache (selfbar_final rp quiet s) = dcache (clean_line (getX s rp) s) /\
  icache (selfbar_final rp quiet s) = icache (inval_line (getX s rp) s).
Proof.
  intros H. destruct s. simpl in H. subst. repeat split.
Qed.

Lemma getret_final_x1 (rx1 rx2 : nat) sch (s : machine) (base : Z) :
  (rx1 < 31)%nat -> rx1 <> rx2 -> pc s = base -> 0 <= base -> base + 16 < 2 ^ 64 ->
  xreg (getret_final rx1 rx2 sch s) rx1 = base + 12.
Proof.
  intros Hr Hne Hpc H0 Hhi. unfold getret_final.
  rewrite !xreg_after by (simpl; congruence).
  unfold after. cbn [snd exec]. rewrite xreg_after_write by exact Hr.
  destruct (apply_all_frame (sch 0%nat) s) as (E & _). rewrite E, Hpc.
  apply wrap64_small. lia.
Qed.

End FurtherRuns.

(** X7: the barrier cleans the whole data-cache line of [p] to the point
    of unification.  For every byte [x] of that line that no other
    observer stores to meanwhile, memory holds after the call what the
    data side saw before it, the data cache holds nothing newer, and the
    data side sees the same byte. *)
Theorem selfbar_cleans_line (base : Z) (rp fuel : nat) sch (p x : Z) (s : machine) :
  valid_allocation selfbar_asm [("p", rp)] = true ->
  base mod 4 = 0 -> 0 <= base -> base + 20 < 2 ^ 64 -> (5 <= fuel)%nat ->
  loaded s base (text_of selfbar_asm [("p", rp)]) ->
  dline s x = dline s p ->
  (forall n, forallb (no_store_in base (base + 20)) (sch n) = true) ->
  (forall n, forallb (no_store_in x (x + 1)) (sch n) = true) ->
  exists tr s',
    selfbar base rp fuel sch p s = Returns tr tt s' /\
    mem s' x = data_byte s x /\ dcache s' x = None /\ data_byte s' x = data_byte s x.
Proof.
  intros Hv Hb H0 Hhi Hf Hl Hd Hq Hqx.
  pose proof (valid_selfbar rp Hv) as Hr.
  do 2 eexists. split; [apply selfbar_runs; assumption|].
  assert (C : clean_at (selfbar_final rp sch (with_pc base (setX rp p s))) x (data_byte s x)).
  { apply selfbar_final_cleans.
    - unfold setX. destruct (Nat.eqb rp 31); reflexivity.
    - rewrite getX_entry by exact Hr. unfold setX. destruct (Nat.eqb rp 31); exact Hd.
    - intros n. eapply spares_of_no_store_in; [apply Hqx | lia]. }
  destruct C as [Cm Cd]. split; [exact Cm|]. split; [exact Cd|].
  unfold data_byte at 1. rewrite Cd. exact Cm.
Qed.

Lemma selfbar_cleans_line_witness :
  exists tr s',
    selfbar 4096 3 5 Demo.busy 12288 (store32 12340 0x11223344 Demo.machine0) =
      Returns tr tt s' /\
    mem s' 12341 = data_byte (store32 12340 0x11223344 Demo.machine0) 12341 /\
    dcache s' 12341 = None /\
    data_byte s' 12341 = data_byte (store32 12340 0x11223344 Demo.machine0) 12341.
Proof.
  apply (selfbar_cleans_line 4096 3 5 Demo.busy 12288 12341
           (store32 12340 0x11223344 Demo.machine0));
    [reflexivity | reflexivity | lia | reflexivity | lia | show_loaded
    | reflexivity | intros n; reflexivity | intros n; reflexivity].
Defined.

(** X3: the barrier reaches no further than the lines of its argument.
    With idle hardware and no maintenance in flight, an aligned word [q]
    outside the data-cache line and the instruction-cache line of [p] is
    left as it was: what the data side wrote there is still only in the
    data cache, and an instruction fetch from [q] reads the bytes the
    instruction side had before the call. *)
Theorem selfbar_spares_other_lines (base : Z) (rp fuel : nat) (p q : Z) (s : machine) :
  valid_allocation selfbar_asm [("p", rp)] = true ->
  base mod 4 = 0 -> 0 <= base -> base + 20 < 2 ^ 64 -> (5 <= fuel)%nat ->
  loaded s base (text_of selfbar_asm [("p", rp)]) ->
  pending s = [] ->
  q mod 4 = 0 -> dline s q <> dline s p -> iline s q <> iline s p ->
  exists tr s',
    selfbar base rp fuel quiet p s = Returns tr tt s' /\
    ifetch s' q = Some (icache_read32 s q) /\
    load32 s' q = load32 s q /\
    forall i, 0 <= i < 4 ->
      dcache s' (q + i) = dcache s (q + i) /\ mem s' (q + i) = mem s (q + i).
Proof.
  intros Hv Hb H0 Hhi Hf Hl Hp Ha Hd Hi.
  pose proof (valid_selfbar rp Hv) as Hr.
  do 2 eexists. split; [apply selfbar_runs; try assumption; intros n; reflexivity|].
  set (s0 := with_pc base (setX rp p s)).
  assert (Hp0 : pending s0 = []).
  { unfold s0, setX. destruct (Nat.eqb rp 31); exact Hp. }
  assert (E0 : mem s0 = mem s /\ dcache s0 = dcache s /\ icache s0 = icache s /\
               dminline s0 = dminline s /\ iminline s0 = iminline s).
  { unfold s0, setX. destruct (Nat.eqb rp 31); repeat split. }
  destruct E0 as (Em & Ed & Ei & Edl & Eil).
  destruct (selfbar_final_quiet rp s0 Hp0) as (Fm & Fd & Fi).
  assert (G : getX s0 rp = p) by (apply getX_entry, Hr).
  rewrite G in Fm, Fd, Fi.
  assert (Ld : forall i, 0 <= i < 4 -> (dline s0 (q + i) =? dline s0 p) = false).
  { intros i Hi'. apply Z.eqb_neq. unfold dline in *. rewrite Edl.
    rewrite word_in_line by assumption. exact Hd. }
  assert (Li : forall i, 0 <= i < 4 -> (iline s0 (q + i) =? iline s0 p) = false).
  { intros i Hi'. apply Z.eqb_neq. unfold iline in *. rewrite Eil.
    rewrite word_in_line by assumption. exact Hi. }
  assert (B : forall i, 0 <= i < 4 ->
            mem (selfbar_final rp quiet s0) (q + i) = mem s (q + i) /\
            dcache (selfbar_final rp quiet s0) (q + i) = dcache s (q + i) /\
            icache (selfbar_final rp quiet s0) (q + i) = icache s (q + i)).
  { intros i Hi'. rewrite Fm, Fd, Fi. simpl.
    rewrite (Ld i Hi'), (Li i Hi').
    unfold setX. destruct (Nat.eqb rp 31); repeat split. }
  pose proof (B 0) as B0. rewrite Z.add_0_r in B0.
  destruct B0 as (M0 & D0 & I0); [lia|].
  destruct (B 1) as (M1 & D1 & I1); [lia|].
  destruct (B 2) as (M2 & D2 & I2); [lia|].
  destruct (B 3) as (M3 & D3 & I3); [lia|].
  split; [|split].
  - unfold ifetch. apply Z.eqb_eq in Ha. rewrite Ha. f_equal.
    assert (P : pipe (selfbar_final rp quiet s0) q = None) by reflexivity.
    unfold fetch32. rewrite P. unfold icache_read32, inst_byte.
    rewrite I0, I1, I2, I3, M0, M1, M2, M3. reflexivity.
  - unfold load32, data_byte. rewrite D0, D1, D2, D3, M0, M1, M2, M3. reflexivity.
  - intros i Hi'. destruct (B i Hi') as (M & D & _). split; assumption.
Qed.

Lemma selfbar_spares_other_lines_witness :
  exists tr s',
    selfbar 4096 3 5 quiet 12288 (store32 12352 0xD65F03C0 Demo.machine0) =
      Returns tr tt s' /\
    ifetch s' 12352 = Some 0 /\
    load32 s' 12352 = 0xD65F03C0 /\
    forall i, 0 <= i < 4 ->
      dcache s' (12352 + i) = dcache (store32 12352 0xD65F03C0 Demo.machine0) (12352 + i) /\
      mem s' (12352 + i) = mem Demo.machine0 (12352 + i).
Proof.
  apply (selfbar_spares_other_lines 4096 3 5 12288 12352
           (store32 12352 0xD65F03C0 Demo.machine0));
    [reflexivity | reflexivity | lia | reflexivity | lia | show_loaded
    | reflexivity | reflexivity | vm_compute; discriminate | vm_compute; discriminate].
Defined.

(** X5: the probe issues no maintenance and no barrier and writes no
    memory: after [getret], memory, both caches, the pipeline and the
    maintenance in flight are exactly what the concurrent actions alone
    would have made them. *)
Theorem getret_leaves_memory_system (base : Z) (rx1 rx2 fuel : nat) sch (s : machine) :
  valid_allocation getret_asm [("x1", rx1); ("x2", rx2)] = true ->
  base mod 4 = 0 -> 0 <= base -> base + 16 < 2 ^ 64 -> (3 <= fuel)%nat ->
  loaded s base (text_of getret_asm [("x1", rx1); ("x2", rx2)]) ->
  (forall n, forallb (no_store_in base (base + 16)) (sch n) = true) ->
  exists tr r s',
    getret base rx1 rx2 fuel sch s = Returns tr r s' /\
    memsys s' = memsys (idle sch 3 s).
Proof.
  intros Hv Hb H0 Hhi Hf Hl Hq.
  do 3 eexists. split; [apply getret_runs; assumption|].
  unfold getret_final. repeat (apply memsys_after_idle; [reflexivity|]). reflexivity.
Qed.

Lemma getret_leaves_memory_system_witness :
  exists tr r s',
    getret 8192 8 9 3 Demo.busy (store32 12288 5 Demo.machine0) = Returns tr r s' /\
    memsys s' = memsys (idle Demo.busy 3 (store32 12288 5 Demo.machine0)).
Proof.
  apply (getret_leaves_memory_system 8192 8 9 3 Demo.busy (store32 12288 5 Demo.machine0));
    [reflexivity | reflexivity | lia | reflexivity | lia | show_loaded
    | intros n; reflexivity].
Defined.

(** X6: the two outputs of the statement belong together.  Because [x1]
    is an early-clobber output of its own, it survives the load: after
    [getret] it still holds the address of the embedded [ret], inside the
    statement's own code, and the returned word is the word both a data
    load and an instruction fetch find there. *)
Theorem getret_outputs (base : Z) (rx1 rx2 fuel : nat) sch (s : machine) :
  valid_allocation getret_asm [("x1", rx1); ("x2", rx2)] = true ->
  base mod 4 = 0 -> 0 <= base -> base + 16 < 2 ^ 64 -> (3 <= fuel)%nat ->
  loaded s base (text_of getret_asm [("x1", rx1); ("x2", rx2)]) ->
  (forall n, forallb (no_store_in base (base + 16)) (sch n) = true) ->
  exists tr r s',
    getret base rx1 rx2 fuel sch s = Returns tr r s' /\
    xreg s' rx1 = base + 12 /\
    load32 s' (xreg s' rx1) = r /\
    ifetch s' (xreg s' rx1) = Some r.
Proof.
  intros Hv Hb H0 Hhi Hf Hl Hq.
  destruct (valid_getret rx1 rx2 Hv) as (Hr1 & Hr2 & Hne).
  do 3 eexists. split; [apply getret_runs; assumption|].
  set (s' := getret_final rx1 rx2 sch (with_pc base s)).
  assert (X : xreg s' rx1 = base + 12)
    by (apply getret_final_x1; try assumption; reflexivity).
  assert (H : holds s' (base + 12) (encode (RET 30))).
  { replace (base + 12) with (base + 4 * Z.of_nat 3) by (simpl; lia).
    apply (loaded_nth s' base (text_of getret_asm [("x1", rx1); ("x2", rx2)]) 3).
    - unfold s', getret_final.
      assert (Hq' : forall n, forallb (no_store_in base
                (base + 4 * Z.of_nat (List.length (text_of getret_asm
                   [("x1", rx1); ("x2", rx2)])))) (sch n) = true).
      { unfold text_of. rewrite (getret_code rx1 rx2 Hv). exact Hq. }
      repeat (apply loaded_after; [apply Hq'|]).
      eapply loaded_same; [| | | | exact Hl]; reflexivity.
    - unfold text_of. rewrite (getret_code rx1 rx2 Hv). reflexivity. }
  split; [exact X|]. rewrite X. split.
  - rewrite (holds_load _ _ _ H). reflexivity.
  - unfold ifetch.
    replace ((base + 12) mod 4 =? 0) with true.
    + rewrite (holds_fetch _ _ _ H). reflexivity.
    + symmetry. apply Z.eqb_eq.
      replace (base + 12) with (base + 3 * 4) by lia.
      rewrite Z_mod_plus_full. exact Hb.
Qed.

Lemma getret_outputs_witness :
  exists tr r s',
    getret 8192 8 9 3 Demo.busy Demo.machine0 = Returns tr r s' /\
    xreg s' 8 = 8192 + 12 /\
    load32 s' (xreg s' 8) = r /\
    ifetch s' (xreg s' 8) = Some r.
Proof.
  apply (getret_outputs 8192 8 9 3 Demo.busy Demo.machine0);
    [reflexivity | reflexivity | lia | reflexivity | lia | show_loaded
    | intros n; reflexivity].
Defined.

Lemma selfbar_statements (rp : nat) :
  valid_allocation selfbar_asm [("p", rp)] = true ->
  statements selfbar_asm [("p", rp)] = Some [SDcCvau rp; SDsbSy; SIcIvau rp; SDsbSy; SIsb].
Proof.
  intros H. apply valid_selfbar in H.
  assert (A : forallb (fun r => reads_as selfbar_asm [("p", r)]
                                  [SDcCvau r; SDsbSy; SIcIvau r; SDsbSy; SIsb])
                      (seq 0 31) = true) by (vm_compute; reflexivity).
  apply reads_as_ok, (below _ _ A), H.
Qed.

Lemma resolve_probe (above below : list (Z * stmt)) (off : Z) (rx1 rx2 : nat) :
  resolve_all above
    ((off, SAdr rx1 (Fwd 0)) :: (off + 4, SLdrW rx2 rx1) :: (off + 4 + 4, SB (Fwd 1)) ::
     (off + 4 + 4 + 4, SLabel 0) :: (off + 4 + 4 + 4, SRet) ::
     (off + 4 + 4 + 4 + 4, SLabel 1) :: below) =
  match resolve_all ((off + 4 + 4 + 4 + 4, SLabel 1) :: (off + 4 + 4 + 4, SRet) ::
                     (off + 4 + 4 + 4, SLabel 0) :: (off + 4 + 4, SB (Fwd 1)) ::
                     (off + 4, SLdrW rx2 rx1) :: (off, SAdr rx1 (Fwd 0)) :: above) below with
  | Some more => Some ([ADR rx1 12; LDR_W rx2 rx1 0; B 8; RET 30] ++ more)%list
  | None => None
  end.
Proof.
  cbn [resolve_all is_instruction resolve target_offset find_label Nat.eqb].
  replace (off + 4 + 4 + 4 - off) with 12 by lia.
  replace (off + 4 + 4 + 4 + 4 - (off + 4 + 4)) with 8 by lia.
  change (fits_adr 12) with true. change (fits_b 8) with true. cbn iota.
  destruct (resolve_all _ below); reflexivity.
Qed.

Lemma resolve_in_context (rx1 rx2 : nat) (post pre : list stmt) :
  forall (above : list (Z * stmt)) (off : Z) (code : list instr),
  resolve_all above
    (layout off (pre ++ [SAdr rx1 (Fwd 0); SLdrW rx2 rx1; SB (Fwd 1); SLabel 0; SRet;
                         SLabel 1] ++ post)%list) = Some code ->
  exists cpre cpost,
    code = (cpre ++ [ADR rx1 12; LDR_W rx2 rx1 0; B 8; RET 30] ++ cpost)%list /\
    List.length cpre = List.length (filter is_instruction pre).
Proof.
  induction pre as [|a pre IH]; intros above off code H.
  - cbn [app layout] in H. rewrite resolve_probe in H.
    destruct (resolve_all _ (layout (off + 4 + 4 + 4 + 4) post)) as [more|]; [|discriminate].
    injection H as <-. exists [], more. split; reflexivity.
  - destruct a;
      cbn [app layout resolve_all is_instruction filter] in H |- *;
      try (destruct (resolve above _ off _) as [i|]; [|discriminate];
           destruct (resolve_all _ _) as [more|] eqn:E; [|discriminate];
           injection H as <-; apply IH in E; destruct E as (cpre & cpost & -> & Hlen);
           exists (i :: cpre), cpost; split; [reflexivity | simpl; f_equal; exact Hlen]).
    apply IH in H. exact H.
Qed.

(** X8: the statement of [getret] is self-contained wherever it lands in
    an assembly file.  Whatever statements come before and after it,
    other copies of itself with their own labels [0:] and [1:] included,
    if the file assembles then the statement contributes the same four
    instructions, right after those of the statements before it: its
    forward references are never captured by a label elsewhere. *)
Theorem getret_code_in_context (rx1 rx2 : nat) (pre post : list stmt) (off : Z)
        (code : list instr) :
  valid_allocation getret_asm [("x1", rx1); ("x2", rx2)] = true ->
  resolve_all [] (layout off (pre ++ stmts_of getret_asm [("x1", rx1); ("x2", rx2)] ++
                              post)%list) = Some code ->
  exists cpre cpost,
    code = (cpre ++ [ADR rx1 12; LDR_W rx2 rx1 0; B 8; RET 30] ++ cpost)%list /\
    List.length cpre = List.length (filter is_instruction pre) /\
    assemble getret_asm [("x1", rx1); ("x2", rx2)] =
      Some [ADR rx1 12; LDR_W rx2 rx1 0; B 8; RET 30].
Proof.
  intros Hv H. unfold stmts_of in H. rewrite (getret_statements rx1 rx2 Hv) in H.
  destruct (resolve_in_context rx1 rx2 post pre [] off code H) as (cpre & cpost & Hc & Hl).
  exists cpre, cpost. split; [exact Hc|]. split; [exact Hl | apply getret_code, Hv].
Qed.

Lemma getret_code_in_context_witness :
  exists cpre cpost,
    [ADR 1 12; LDR_W 2 1 0; B 8; RET 30; DC_CVAU 3; DSB_SY; IC_IVAU 3; DSB_SY; ISB;
     ADR 8 12; LDR_W 9 8 0; B 8; RET 30; ADR 4 12; LDR_W 5 4 0; B 8; RET 30] =
    (cpre ++ [ADR 8 12; LDR_W 9 8 0; B 8; RET 30] ++ cpost)%list /\
    List.length cpre =
      List.length (filter is_instruction
                     (stmts_of getret_asm [("x1", 1%nat); ("x2", 2%nat)] ++
                      stmts_of selfbar_asm [("p", 3%nat)])%list) /\
    assemble getret_asm [("x1", 8%nat); ("x2", 9%nat)] =
      Some [ADR 8 12; LDR_W 9 8 0; B 8; RET 30].
Proof.
  apply (getret_code_in_context 8 9
           (stmts_of getret_asm [("x1", 1%nat); ("x2", 2%nat)] ++
            stmts_of selfbar_asm [("p", 3%nat)])%list
           (stmts_of getret_asm [("x1", 4%nat); ("x2", 5%nat)])
           4096);
    [reflexivity | reflexivity].
Defined.
